(** * ModelX_SOTA: the evaluation session and its image-generation client

    A shallow embedding of the TypeScript sources of the repository:
    - [services/geminiService] : [parseBase64], [generateTestImage],
      [generateComparisonPair];
    - [types] : the roles, the phases and the evaluation records;
    - [App] : the React state of the session and its event handlers.

    JavaScript strings are sequences of UTF-16 code units, numbers that
    carry scores are rationals, objects that the code mutates in place (the
    metric objects) live in an explicit heap and are referred to by
    location.  The external image service and the clock are inputs. *)

From Stdlib Require Import String Ascii NArith ZArith QArith Qround Lia Bool.
From stdpp Require Import base option list.

Local Open Scope N_scope.

(** ** JavaScript strings *)

Module Js.

(** A string is the list of its UTF-16 code units. *)
Definition jsstring := list N.

(** Source literals are written in UTF-8; [lit] turns one into code units. *)
Fixpoint utf8_points (bs : list N) (need : nat) (acc : N) : list N :=
  match bs with
  | [] => []
  | b :: bs' =>
      match need with
      | O =>
          if b <? 128 then b :: utf8_points bs' 0 0
          else if b <? 224 then utf8_points bs' 1 (b mod 32)
          else if b <? 240 then utf8_points bs' 2 (b mod 16)
          else utf8_points bs' 3 (b mod 8)
      | S n =>
          let acc' := acc * 64 + b mod 64 in
          match n with
          | O => acc' :: utf8_points bs' 0 0
          | S _ => utf8_points bs' n acc'
          end
      end
  end.

Definition utf16_units (cp : N) : list N :=
  if cp <? 65536 then [cp]
  else [55296 + (cp - 65536) / 1024; 56320 + (cp - 65536) mod 1024].

Definition lit (s : string) : jsstring :=
  utf8_points (List.map N_of_ascii (list_ascii_of_string s)) 0 0
    ≫= utf16_units.

(** [WhiteSpace] and [LineTerminator] of ECMAScript, the characters that
    [String.prototype.trim] strips. *)
Definition is_line_terminator (c : N) : bool :=
  (c =? 10) || (c =? 13) || (c =? 8232) || (c =? 8233).

Definition is_white_space (c : N) : bool :=
  (c =? 9) || (c =? 11) || (c =? 12) || (c =? 32) || (c =? 160)
  || (c =? 5760) || ((8192 <=? c) && (c <=? 8202)) || (c =? 8239)
  || (c =? 8287) || (c =? 12288) || (c =? 65279).

Definition is_trimmed (c : N) : bool :=
  is_white_space c || is_line_terminator c.

Fixpoint trimStart (s : jsstring) : jsstring :=
  match s with
  | c :: s' => if is_trimmed c then trimStart s' else s
  | [] => []
  end.

Definition trimEnd (s : jsstring) : jsstring := rev (trimStart (rev s)).

Definition trim (s : jsstring) : jsstring := trimEnd (trimStart s).

(** Truthiness of a string: every string but the empty one. *)
Definition truthy (s : jsstring) : bool :=
  match s with [] => false | _ :: _ => true end.

(** Truthiness of [string | null]. *)
Definition truthy_opt (o : option jsstring) : bool :=
  match o with Some s => truthy s | None => false end.

#[global] Arguments lit : simpl never.
#[global] Arguments trim : simpl never.

End Js.
Export Js.

(** ** Regular expressions

    The fragment of ECMAScript regular expressions that the source uses,
    with the backtracking semantics of the language: a greedy [+] tries the
    longest repetition first and gives characters back when the rest of the
    pattern fails. *)

Module Regex.

Inductive regex : Type :=
| Bol                         (* ^ *)
| Eol                         (* $ , no multiline flag *)
| Lit (s : jsstring)          (* a sequence of literal characters *)
| Plus (cls : N → bool)       (* [class]+ or .+ , greedy *)
| Group (r : regex)           (* ( r ) , capturing *)
| Cat (r1 r2 : regex).

(** A continuation receives the position reached, the input left and the
    captures made so far. *)
Definition cont : Type := nat → jsstring → list jsstring → option (list jsstring).

Fixpoint match_lit (l : jsstring) (pos : nat) (s : jsstring) : option (nat * jsstring) :=
  match l with
  | [] => Some (pos, s)
  | c :: l' =>
      match s with
      | d :: s' => if c =? d then match_lit l' (S pos) s' else None
      | [] => None
      end
  end.

(** [plus_more] runs once a first character of the class was consumed. *)
Fixpoint plus_more (cls : N → bool) (pos : nat) (s : jsstring)
    (k : nat → jsstring → option (list jsstring)) : option (list jsstring) :=
  match s with
  | c :: s' =>
      if cls c then
        match plus_more cls (S pos) s' k with
        | Some r => Some r
        | None => k pos s
        end
      else k pos s
  | [] => k pos s
  end.

Definition plus (cls : N → bool) (pos : nat) (s : jsstring)
    (k : nat → jsstring → option (list jsstring)) : option (list jsstring) :=
  match s with
  | c :: s' => if cls c then plus_more cls (S pos) s' k else None
  | [] => None
  end.

Fixpoint rmatch (r : regex) (pos : nat) (s : jsstring) (caps : list jsstring)
    (k : cont) : option (list jsstring) :=
  match r with
  | Bol => if Nat.eqb pos 0 then k pos s caps else None
  | Eol => match s with [] => k pos s caps | _ :: _ => None end
  | Lit l =>
      match match_lit l pos s with
      | Some (pos', s') => k pos' s' caps
      | None => None
      end
  | Plus cls => plus cls pos s (λ pos' s', k pos' s' caps)
  | Group r' =>
      rmatch r' pos s caps
        (λ pos' s' caps', k pos' s' (caps' ++ [take (pos' - pos) s]))
  | Cat r1 r2 =>
      rmatch r1 pos s caps (λ pos' s' caps', rmatch r2 pos' s' caps' k)
  end.

(** [RegExp.prototype.exec] from index 0: the first start position at which
    the pattern matches, as the array of the whole match and the groups. *)
Fixpoint exec_from (r : regex) (pos : nat) (s : jsstring) : option (list jsstring) :=
  match rmatch r pos s [] (λ pos' _ caps, Some (take (pos' - pos) s :: caps)) with
  | Some m => Some m
  | None =>
      match s with
      | [] => None
      | _ :: s' => exec_from r (S pos) s'
      end
  end.

(** [String.prototype.match] with a regular expression without the [g] flag. *)
Definition str_match (r : regex) (s : jsstring) : option (list jsstring) :=
  exec_from r 0 s.

End Regex.
Export Regex.

(** ** services/geminiService: the encoded-image convention *)

Inductive JsError : Type :=
| Error (message : jsstring)            (* new Error(message) *)
| TypeError (message : jsstring)        (* raised by the runtime *)
| Rejection (reason : jsstring).        (* whatever the service client rejects with *)

(** The class [[A-Za-z-+\/]]. *)
Definition mime_class (c : N) : bool :=
  ((65 <=? c) && (c <=? 90)) || ((97 <=? c) && (c <=? 122))
  || (c =? 45) || (c =? 43) || (c =? 47).

(** The class of [.] without the [s] flag. *)
Definition dot (c : N) : bool := negb (is_line_terminator c).

(** [/^data:([A-Za-z-+\/]+);base64,(.+)$/] *)
Definition data_url_re : regex :=
  Cat Bol (Cat (Lit (lit "data:")) (Cat (Group (Plus mime_class))
    (Cat (Lit (lit ";base64,")) (Cat (Group (Plus dot)) Eol)))).

Record Blob : Type := { mimeType : jsstring; data : jsstring }.

Definition parseBase64 (base64String : jsstring) : JsError + Blob :=
  match str_match data_url_re base64String with
  | Some [_; m1; m2] => inr {| mimeType := m1; data := m2 |}
  | _ => inl (Error (lit "Invalid input string"))
  end.

(** The template [`data:${mimeType};base64,${data}`]. *)
Definition data_url (b : Blob) : jsstring :=
  lit "data:" ++ mimeType b ++ lit ";base64," ++ data b.


(** ** services/geminiService: requests, responses and effects *)

(** A content part of a request or of a response: an object with the
    optional fields [text] and [inlineData]. *)
Record Part : Type := { text : option jsstring; inlineData : option Blob }.

Record Content : Type := { parts : option (list Part) }.

Record Candidate : Type := { content : option Content }.

(** What [ai.models.generateContent] resolves with. *)
Record Response : Type := { candidates : option (list Candidate) }.

Record Request : Type := { model : jsstring; contents : list Part }.

(** The external service settles a request with a rejection or a response.
    It is consulted with the number of requests issued before this one. *)
Definition Outcome : Type := JsError + Response.

Definition Oracle : Type := nat → Request → Outcome.

Inductive LogEntry : Type :=
| ConsoleError (label : jsstring) (error : JsError).

(** The effects of the service module: the requests sent and the console. *)
Record Net : Type := { requests : list Request; console : list LogEntry }.

(** Computations that may throw and that act on [Net]. *)
Definition M (A : Type) : Type := Net → (JsError + A) * Net.

Definition ret {A} (a : A) : M A := λ n, (inr a, n).

Definition throw {A} (e : JsError) : M A := λ n, (inl e, n).

Definition bind {A B} (m : M A) (k : A → M B) : M B :=
  λ n, match m n with
       | (inr a, n') => k a n'
       | (inl e, n') => (inl e, n')
       end.

Definition try_catch {A} (m : M A) (handler : JsError → M A) : M A :=
  λ n, match m n with
       | (inr a, n') => (inr a, n')
       | (inl e, n') => handler e n'
       end.

Definition lift {A} (r : JsError + A) : M A := λ n, (r, n).

Notation "'let*' x ':=' m 'in' k" := (bind m (λ x, k))
  (at level 10, x name, m at level 100, k at level 200).

Definition console_error (label : jsstring) (error : JsError) : M unit :=
  λ n, (inr tt, {| requests := requests n;
                   console := console n ++ [ConsoleError label error] |}).

(** [await ai.models.generateContent(...)] : the request is recorded and the
    service's outcome for it is awaited. *)
Definition generateContent (respond : Oracle) (req : Request) : M Response :=
  λ n, (respond (length (requests n)) req,
        {| requests := requests n ++ [req]; console := console n |}).

(** Lines 19-29: the parts of the request. *)
Definition build_parts (prompt : jsstring) (referenceImage : option jsstring)
    : JsError + list Part :=
  let parts := [{| text := Some prompt; inlineData := None |}] in
  if truthy_opt referenceImage then
    match parseBase64 (default [] referenceImage) with
    | inr b =>
        inr ({| text := None;
                inlineData := Some {| mimeType := mimeType b; data := data b |} |}
             :: parts)
    | inl e => inl e
    end
  else inr parts.

(** The loop of lines 40-44: the first part that carries inline data. *)
Fixpoint first_inline (ps : list Part) : option Blob :=
  match ps with
  | [] => None
  | part :: ps' =>
      match inlineData part with
      | Some b => Some b
      | None => first_inline ps'
      end
  end.

(** Lines 38-47.  [response.candidates[0]] of an empty array is [undefined],
    and reading [.content] of it raises a [TypeError]. *)
Definition extract_image (response : Response) : JsError + jsstring :=
  let no_image := inl (Error (lit "No image data found in response")) in
  match candidates response with
  | None => no_image
  | Some cs =>
      match cs !! 0%nat with
      | None =>
          inl (TypeError
                 (lit "Cannot read properties of undefined (reading 'content')"))
      | Some c =>
          match content c with
          | None => no_image
          | Some ct =>
              match parts ct with
              | None => no_image
              | Some ps =>
                  match first_inline ps with
                  | Some b => inr (data_url b)
                  | None => no_image
                  end
              end
          end
      end
  end.

Definition gemini_model : jsstring := lit "gemini-2.5-flash-image".

Definition log_and_rethrow {A} (error : JsError) : M A :=
  let* _ := console_error (lit "Gemini Image Gen Error:") error in
  throw error.

Definition generateTestImage (respond : Oracle) (prompt : jsstring)
    (referenceImage : option jsstring) : M jsstring :=
  try_catch
    (let* parts := lift (build_parts prompt referenceImage) in
     let* response := generateContent respond
                        {| model := gemini_model; contents := parts |} in
     lift (extract_image response))
    log_and_rethrow.

(** *** The two halves of a call, for calls that run concurrently

    A call runs synchronously up to its [await]: it is then either settled
    already (the reference image did not parse) or in flight. *)
Inductive Task : Type :=
| Settled (r : JsError + jsstring)
| InFlight (index : nat) (req : Request).

Definition gti_start (prompt : jsstring) (referenceImage : option jsstring)
    : Net → Task * Net :=
  λ n, match build_parts prompt referenceImage with
       | inl e => (Settled (inl e), snd (console_error (lit "Gemini Image Gen Error:") e n))
       | inr parts =>
           let req := {| model := gemini_model; contents := parts |} in
           (InFlight (length (requests n)) req,
            {| requests := requests n ++ [req]; console := console n |})
       end.

(** The rest of the call once the service has settled the request. *)
Definition gti_resume (o : Outcome) : M jsstring :=
  try_catch (let* response := lift o in lift (extract_image response))
    log_and_rethrow.

Definition gti_finish (respond : Oracle) (t : Task) : M jsstring :=
  match t with
  | Settled r => lift r
  | InFlight i req => gti_resume (respond i req)
  end.

(** *** Promise.all of two calls *)

Inductive Side : Type := SideA | SideB.

(** Which of the two promises settles first: one that was settled before
    any response arrived comes first, the first of the array when both were;
    otherwise the network decides ([first]). *)
Definition settles_first (first : Side) (tA tB : Task) : Side :=
  match tA, tB with
  | Settled _, _ => SideA
  | InFlight _ _, Settled _ => SideB
  | InFlight _ _, InFlight _ _ => first
  end.

(** The aggregate promise: rejected with the first rejection in the order of
    settlement, fulfilled with both values otherwise. *)
Definition all_settled (first : Side) (rA rB : JsError + jsstring)
    : JsError + (jsstring * jsstring) :=
  match first with
  | SideA =>
      match rA, rB with
      | inl e, _ => inl e
      | inr _, inl e => inl e
      | inr a, inr b => inr (a, b)
      end
  | SideB =>
      match rB, rA with
      | inl e, _ => inl e
      | inr _, inl e => inl e
      | inr b, inr a => inr (a, b)
      end
  end.

(** Both calls are started, in the order of the array; the one that settles
    first finishes first; the sibling of a failed call still runs to its
    end. *)
Definition finish_all2 (respond : Oracle) (first : Side) (tA tB : Task)
    : M (jsstring * jsstring) :=
  λ n,
    match settles_first first tA tB with
    | SideA =>
        let '(rA, n1) := gti_finish respond tA n in
        let '(rB, n2) := gti_finish respond tB n1 in
        (all_settled SideA rA rB, n2)
    | SideB =>
        let '(rB, n1) := gti_finish respond tB n in
        let '(rA, n2) := gti_finish respond tA n1 in
        (all_settled SideB rA rB, n2)
    end.

Definition promise_all2 (respond : Oracle) (first : Side)
    (startA startB : Net → Task * Net) : M (jsstring * jsstring) :=
  λ n,
    let '(tA, n1) := startA n in
    let '(tB, n2) := startB n1 in
    finish_all2 respond first tA tB n2.

Record ComparisonPair : Type := { imageA : jsstring; imageB : jsstring }.

(** [return { imageA: resA, imageB: resB }] *)
Definition to_pair (res : jsstring * jsstring) : ComparisonPair :=
  let '(resA, resB) := res in {| imageA := resA; imageB := resB |}.

Definition generateComparisonPair (respond : Oracle) (first : Side)
    (prompt : jsstring) (referenceImage : option jsstring) : M ComparisonPair :=
  let* res := promise_all2 respond first
      (gti_start (prompt ++ lit " --v 1") referenceImage)
      (gti_start (prompt ++ lit " --v 2") referenceImage) in
  ret (to_pair res).

(** The part of [generateComparisonPair] that follows the start of its two
    calls. *)
Definition pair_finish (respond : Oracle) (first : Side) (tA tB : Task)
    : M ComparisonPair :=
  let* res := finish_all2 respond first tA tB in
  ret (to_pair res).

(** ** types *)

Inductive UserRole : Type := GENERAL_USER | DESIGNER | CREATOR | AI_EXPERT.

(** The string value of each member of the enumeration. *)
Definition UserRole_value (r : UserRole) : jsstring :=
  match r with
  | GENERAL_USER => lit "😃 普通用户"
  | DESIGNER => lit "🎨 专业设计师"
  | CREATOR => lit "📸 内容创作者"
  | AI_EXPERT => lit "🤖 AIGC 专家"
  end.

(** [Object.values(UserRole)] *)
Definition UserRole_values : list UserRole :=
  [GENERAL_USER; DESIGNER; CREATOR; AI_EXPERT].

Inductive TestPhase : Type :=
  ONBOARDING | USER_INPUT | GENERATION_EVAL | AB_TEST | COMPLETED.

#[global] Instance UserRole_eq_dec : EqDecision UserRole.
Proof. solve_decision. Defined.

#[global] Instance TestPhase_eq_dec : EqDecision TestPhase.
Proof. solve_decision. Defined.

(** Metric objects are mutated in place by the sliders and shared between
    arrays, so arrays of metrics hold locations of a heap of objects. *)
Definition loc : Type := nat.

Module EvaluationMetric.
Record t : Type :=
  { id : jsstring; label : jsstring; score : Q; description : jsstring }.

(** [{...m, score: v}] *)
Definition with_score (v : Q) (m : t) : t :=
  {| id := id m; label := label m; score := v; description := description m |}.
End EvaluationMetric.

Abbreviation Heap := (list EvaluationMetric.t).

Module SingleEvalResult.
Record t : Type :=
  { prompt : jsstring;
    image : jsstring;
    metrics : list loc;
    feedback : jsstring;
    timestamp : Z }.
End SingleEvalResult.

Module Selection.
Inductive t : Type := A | B | Equal.
End Selection.

#[global] Instance Selection_eq_dec : EqDecision Selection.t.
Proof. solve_decision. Defined.

Module ABTestResult.
Record t : Type :=
  { prompt : jsstring;
    sourceImage : option jsstring;
    imageA : jsstring;
    imageB : jsstring;
    selectedImage : Selection.t;
    reasoning : jsstring;
    timestamp : Z }.
End ABTestResult.

Module UserSession.
Record t : Type :=
  { role : UserRole;
    experienceLevel : Z;
    singleEvals : list SingleEvalResult.t;
    abTests : list ABTestResult.t }.

(** [{ ...prev, role }] *)
Definition with_role (r : UserRole) (prev : t) : t :=
  {| role := r; experienceLevel := experienceLevel prev;
     singleEvals := singleEvals prev; abTests := abTests prev |}.

(** [{ ...prev, singleEvals: [...prev.singleEvals, result] }] *)
Definition add_singleEval (result : SingleEvalResult.t) (prev : t) : t :=
  {| role := role prev; experienceLevel := experienceLevel prev;
     singleEvals := singleEvals prev ++ [result]; abTests := abTests prev |}.

(** [{ ...prev, abTests: [...prev.abTests, result] }] *)
Definition add_abTest (result : ABTestResult.t) (prev : t) : t :=
  {| role := role prev; experienceLevel := experienceLevel prev;
     singleEvals := singleEvals prev; abTests := abTests prev ++ [result] |}.
End UserSession.

(** ** App: constants *)

(** The module-level array [INITIAL_METRICS]: its four objects are the first
    four of the heap. *)
Definition INITIAL_METRICS : list loc := [0; 1; 2; 3]%nat.

Definition initial_heap : Heap :=
  [ {| EvaluationMetric.id := lit "adherence";
       EvaluationMetric.label := lit "提示词遵循度";
       EvaluationMetric.score := 3;
       EvaluationMetric.description := lit "图像是否准确反映了提示词的内容？" |};
    {| EvaluationMetric.id := lit "quality";
       EvaluationMetric.label := lit "视觉保真度";
       EvaluationMetric.score := 3;
       EvaluationMetric.description := lit "清晰度、锐度以及噪点控制。" |};
    {| EvaluationMetric.id := lit "aesthetics";
       EvaluationMetric.label := lit "美学质量";
       EvaluationMetric.score := 3;
       EvaluationMetric.description := lit "构图、光影及艺术表现力。" |};
    {| EvaluationMetric.id := lit "coherence";
       EvaluationMetric.label := lit "结构连贯性";
       EvaluationMetric.score := 3;
       EvaluationMetric.description := lit "解剖结构、透视及物体逻辑是否合理。" |} ].

Definition SUGGESTED_PROMPTS : list jsstring :=
  [ lit "火星上巨大的玻璃泡内建造的未来城市，电影级布光";
    lit "一只穿着文艺复兴时期皇家服饰的猫的油画，华丽的金框";
    lit "环保咖啡店的极简主义 Logo 设计，矢量风格，扁平化色彩";
    lit "东京的赛博朋克街头小吃摊贩，霓虹雨，细节纹理，8k" ].

(** ** App: the React state

    Each [useState] cell is a field.  [metrics] is the current array of
    metric objects, as heap locations. *)

Module Pair.
Record t : Type := { A : jsstring; B : jsstring }.
End Pair.

Record AppState : Type :=
  { phase : TestPhase;
    session : UserSession.t;
    prompt : jsstring;
    uploadedImage : option jsstring;
    loading : bool;
    generatedImage : option jsstring;
    comparisonImages : option Pair.t;
    metrics : list loc;
    textFeedback : jsstring;
    error : option jsstring }.

Definition initial_state : AppState :=
  {| phase := ONBOARDING;
     session := {| UserSession.role := GENERAL_USER;
                   UserSession.experienceLevel := 5;
                   UserSession.singleEvals := [];
                   UserSession.abTests := [] |};
     prompt := [];
     uploadedImage := None;
     loading := false;
     generatedImage := None;
     comparisonImages := None;
     metrics := INITIAL_METRICS;
     textFeedback := [];
     error := None |}.

(** A handler does not change the state it reads: it queues updates, which
    React applies in the order of the calls once the handler has returned
    (or is suspended at an [await]). *)
Inductive Update : Type :=
| setPhase (p : TestPhase)
| setSession (f : UserSession.t → UserSession.t)
| setPrompt (s : jsstring)
| setUploadedImage (o : option jsstring)
| setLoading (b : bool)
| setGeneratedImage (o : option jsstring)
| setComparisonImages (o : option Pair.t)
| setMetrics (l : list loc)
| setTextFeedback (s : jsstring)
| setError (o : option jsstring).

Definition apply_update (st : AppState) (u : Update) : AppState :=
  let '{| phase := ph; session := se; prompt := pr; uploadedImage := up;
          loading := lo; generatedImage := ge; comparisonImages := co;
          metrics := me; textFeedback := te; error := er |} := st in
  match u with
  | setPhase p =>
      {| phase := p; session := se; prompt := pr; uploadedImage := up;
         loading := lo; generatedImage := ge; comparisonImages := co;
         metrics := me; textFeedback := te; error := er |}
  | setSession f =>
      {| phase := ph; session := f se; prompt := pr; uploadedImage := up;
         loading := lo; generatedImage := ge; comparisonImages := co;
         metrics := me; textFeedback := te; error := er |}
  | setPrompt s =>
      {| phase := ph; session := se; prompt := s; uploadedImage := up;
         loading := lo; generatedImage := ge; comparisonImages := co;
         metrics := me; textFeedback := te; error := er |}
  | setUploadedImage o =>
      {| phase := ph; session := se; prompt := pr; uploadedImage := o;
         loading := lo; generatedImage := ge; comparisonImages := co;
         metrics := me; textFeedback := te; error := er |}
  | setLoading b =>
      {| phase := ph; session := se; prompt := pr; uploadedImage := up;
         loading := b; generatedImage := ge; comparisonImages := co;
         metrics := me; textFeedback := te; error := er |}
  | setGeneratedImage o =>
      {| phase := ph; session := se; prompt := pr; uploadedImage := up;
         loading := lo; generatedImage := o; comparisonImages := co;
         metrics := me; textFeedback := te; error := er |}
  | setComparisonImages o =>
      {| phase := ph; session := se; prompt := pr; uploadedImage := up;
         loading := lo; generatedImage := ge; comparisonImages := o;
         metrics := me; textFeedback := te; error := er |}
  | setMetrics l =>
      {| phase := ph; session := se; prompt := pr; uploadedImage := up;
         loading := lo; generatedImage := ge; comparisonImages := co;
         metrics := l; textFeedback := te; error := er |}
  | setTextFeedback s =>
      {| phase := ph; session := se; prompt := pr; uploadedImage := up;
         loading := lo; generatedImage := ge; comparisonImages := co;
         metrics := me; textFeedback := s; error := er |}
  | setError o =>
      {| phase := ph; session := se; prompt := pr; uploadedImage := up;
         loading := lo; generatedImage := ge; comparisonImages := co;
         metrics := me; textFeedback := te; error := o |}
  end.

Definition commit (queue : list Update) (st : AppState) : AppState :=
  foldl apply_update st queue.

(** ** App: the handlers

    A handler is a function of the state of the render it closes over; it
    returns the queue of updates it makes.  An [async] handler is given by
    what it does up to its [await] and by what it does when the awaited
    promise has settled. *)

Definition handleStart (role : UserRole) (st : AppState) : list Update :=
  [ setSession (UserSession.with_role role);
    if decide (role = GENERAL_USER) then setPhase USER_INPUT
    else setPhase GENERATION_EVAL ].

(** [reader.onloadend] of [handleImageUpload]. *)
Definition reader_onloadend (result : option jsstring) : list Update :=
  [ setUploadedImage result ].

Definition handleGenerateSingle_begin (st : AppState) (n : Net)
    : option (list Update * Task * Net) :=
  if negb (truthy (trim (prompt st))) then None
  else
    let '(t, n') := gti_start (prompt st) None n in
    Some ([setLoading true; setError None; setGeneratedImage None], t, n').

Definition handleGenerateSingle_resume (r : JsError + jsstring) : list Update :=
  match r with
  | inr img => [setGeneratedImage (Some img); setLoading false]
  | inl _ => [setError (Some (lit "生成图像失败，请重试。")); setLoading false]
  end.

(** The [onChange] that [renderGenerationEval] gives to the slider of the
    metric at index [idx]: the array is copied, the object is not. *)
Definition slider_onChange (idx : nat) (val : Q) (st : AppState) (h : Heap)
    : Heap * list Update :=
  let newMetrics := metrics st in
  match newMetrics !! idx with
  | Some l => (alter (EvaluationMetric.with_score val) l h, [setMetrics newMetrics])
  | None => (h, [])
  end.

Definition handleSubmitSingleEval (now : Z) (st : AppState) (h : Heap)
    : Heap * list Update :=
  match generatedImage st with
  | Some img =>
      if truthy img then
        let result :=
          {| SingleEvalResult.prompt := prompt st;
             SingleEvalResult.image := img;
             SingleEvalResult.metrics := metrics st;
             SingleEvalResult.feedback := textFeedback st;
             SingleEvalResult.timestamp := now |} in
        let fresh :=
          EvaluationMetric.with_score 3 <$> omap (λ l, h !! l) INITIAL_METRICS in
        (h ++ fresh,
         [ setSession (UserSession.add_singleEval result);
           setGeneratedImage None;
           setPrompt [];
           setMetrics (seq (length h) (length fresh));
           setTextFeedback [];
           setPhase AB_TEST ])
      else (h, [])
  | None => (h, [])
  end.

Definition handleGeneralUserSubmit_begin (st : AppState) (n : Net)
    : option (list Update * (Task * Task) * Net) :=
  if negb (truthy_opt (uploadedImage st)) || negb (truthy (trim (prompt st)))
  then None
  else
    let '(tA, n1) := gti_start (prompt st ++ lit " --v 1") (uploadedImage st) n in
    let '(tB, n2) := gti_start (prompt st ++ lit " --v 2") (uploadedImage st) n1 in
    Some ([setLoading true; setPhase AB_TEST], (tA, tB), n2).

Definition pair_of (p : ComparisonPair) : Pair.t :=
  {| Pair.A := imageA p; Pair.B := imageB p |}.

Definition handleGeneralUserSubmit_resume (r : JsError + ComparisonPair)
    : list Update :=
  match r with
  | inr p => [setComparisonImages (Some (pair_of p)); setLoading false]
  | inl _ =>
      [ setError (Some (lit "图像处理失败，请重试。"));
        setPhase USER_INPUT;
        setLoading false ]
  end.

(** [Math.floor(Math.random() * SUGGESTED_PROMPTS.length)] *)
Definition random_index (random : Q) : nat :=
  Z.to_nat (Qfloor (random * inject_Z (Z.of_nat (length SUGGESTED_PROMPTS)))).

(** [prompt.trim() || SUGGESTED_PROMPTS[...]]; [Math.random()] lies in
    [0, 1), which keeps the index inside the array. *)
Definition testPrompt_of (random : Q) (st : AppState) : jsstring :=
  if truthy (trim (prompt st)) then trim (prompt st)
  else default [] (SUGGESTED_PROMPTS !! random_index random).

Definition handleStartProfessionalABTest_begin (random : Q) (st : AppState)
    (n : Net) : list Update * (Task * Task) * Net :=
  let testPrompt := testPrompt_of random st in
  let '(tA, n1) := gti_start (testPrompt ++ lit " --v 1") None n in
  let '(tB, n2) := gti_start (testPrompt ++ lit " --v 2") None n1 in
  ([setPrompt testPrompt; setLoading true; setError None], (tA, tB), n2).

Definition handleStartProfessionalABTest_resume (r : JsError + ComparisonPair)
    : list Update :=
  match r with
  | inr p => [setComparisonImages (Some (pair_of p)); setLoading false]
  | inl _ => [setError (Some (lit "生成对比图像失败。")); setLoading false]
  end.

Definition handleABSelection (selection : Selection.t) (now : Z)
    (st : AppState) : list Update :=
  match comparisonImages st with
  | None => []
  | Some images =>
      let result :=
        {| ABTestResult.prompt := prompt st;
           ABTestResult.sourceImage :=
             if truthy_opt (uploadedImage st) then uploadedImage st else None;
           ABTestResult.imageA := Pair.A images;
           ABTestResult.imageB := Pair.B images;
           ABTestResult.selectedImage := selection;
           ABTestResult.reasoning := textFeedback st;
           ABTestResult.timestamp := now |} in
      [ setSession (UserSession.add_abTest result); setPhase COMPLETED ]
  end.

(** ** App: what each render offers *)

Definition isGeneralUser (st : AppState) : bool :=
  bool_decide (UserSession.role (session st) = GENERAL_USER).

(** [renderGenerationEval]: the block of sliders and of the submit button,
    under [generatedImage && ...]. *)
Definition shows_rating (st : AppState) : bool := truthy_opt (generatedImage st).

(** [renderGenerationEval]: [disabled={!prompt}] *)
Definition generate_disabled (st : AppState) : bool := negb (truthy (prompt st)).

(** [renderUserInput]: [disabled={!uploadedImage || !prompt.trim()}] *)
Definition general_submit_disabled (st : AppState) : bool :=
  negb (truthy_opt (uploadedImage st)) || negb (truthy (trim (prompt st))).

(** [renderABTest]: [!comparisonImages && !loading && !isGeneralUser] *)
Definition shows_start_step (st : AppState) : bool :=
  negb (bool_decide (is_Some (comparisonImages st))) && negb (loading st)
  && negb (isGeneralUser st).

(** [renderABTest]: [comparisonImages && !loading] *)
Definition shows_comparison (st : AppState) : bool :=
  bool_decide (is_Some (comparisonImages st)) && negb (loading st).

(** [renderABTest]: the images that carry [onClick] of [handleABSelection]. *)
Definition clickable_images : list Selection.t := [Selection.A; Selection.B].

(** [renderABTest]: [disabled={!textFeedback.trim()}] of the Equal button. *)
Definition equal_disabled (st : AppState) : bool :=
  negb (truthy (trim (textFeedback st))).

(** The banner of an error.  [renderUserInput] and [renderGenerationEval]
    have [{error && ...}]; [renderOnboarding], [renderABTest] and
    [renderCompleted] have no element that reads [error]. *)
Definition error_banner (st : AppState) : option jsstring :=
  match phase st with
  | USER_INPUT | GENERATION_EVAL =>
      if truthy_opt (error st) then error st else None
  | ONBOARDING | AB_TEST | COMPLETED => None
  end.

(** Modelled from the spec: [components/Button] is not among the sources.
    Validation failures are "prevented at the interaction layer by disabling
    actions": a Button whose [disabled] is true does not run its [onClick]. *)
Definition Button_fires (disabled : bool) : bool := negb disabled.

(** ** The session as a transition system *)

(** A handler suspended at its [await], with the calls it started. *)
Inductive Suspended : Type :=
| AwaitGenerateSingle (t : Task)
| AwaitGeneralUserSubmit (tA tB : Task)
| AwaitProfessionalABTest (tA tB : Task).

Record World : Type :=
  { ui : AppState;
    heap : Heap;
    net : Net;
    suspended : list Suspended;
    readers : nat }.

Definition initial_world : World :=
  {| ui := initial_state;
     heap := initial_heap;
     net := {| requests := []; console := [] |};
     suspended := [];
     readers := 0 |}.

(** What happens to the App: the actions of the user on what is rendered,
    with the time of [Date.now()] and the draw of [Math.random()] where the
    handler reads them, and the completions that the browser delivers. *)
Inductive Event : Type :=
| Click_role (role : UserRole)          (* renderOnboarding: handleStart(role) *)
| Pick_file                             (* handleImageUpload with a file *)
| Reader_loadend (result : option jsstring)       (* reader.onloadend *)
| Type_prompt (s : jsstring)            (* setPrompt, typed or suggested *)
| Type_feedback (s : jsstring)          (* setTextFeedback *)
| Slide (idx : nat) (val : Q)           (* RatingSlider onChange *)
| Click_generate                        (* handleGenerateSingle *)
| Click_submit_eval (now : Z)           (* handleSubmitSingleEval *)
| Click_general_submit                  (* handleGeneralUserSubmit *)
| Click_start_ab (random : Q)           (* handleStartProfessionalABTest *)
| Choose (selection : Selection.t) (now : Z)      (* handleABSelection *)
| Settle (i : nat) (respond : Oracle) (first : Side).
    (* the service settles the requests of the i-th suspended handler *)

(** What the render of the current phase lets the user do.  A Button is
    taken to obey [disabled]; nothing is assumed of its [isLoading], so a
    second click on the generate button during a generation is allowed. *)
Definition offered (e : Event) (st : AppState) : bool :=
  match e with
  | Click_role _ => bool_decide (phase st = ONBOARDING)
  | Pick_file => bool_decide (phase st = USER_INPUT)
  | Reader_loadend _ => true
  | Type_prompt _ =>
      bool_decide (phase st = USER_INPUT)
      || bool_decide (phase st = GENERATION_EVAL)
      || (bool_decide (phase st = AB_TEST) && shows_start_step st)
  | Type_feedback _ => bool_decide (phase st = AB_TEST) && shows_comparison st
  | Slide idx _ =>
      bool_decide (phase st = GENERATION_EVAL) && shows_rating st
      && bool_decide (idx < length (metrics st))%nat
  | Click_generate =>
      bool_decide (phase st = GENERATION_EVAL)
      && Button_fires (generate_disabled st)
  | Click_submit_eval _ =>
      bool_decide (phase st = GENERATION_EVAL) && shows_rating st
  | Click_general_submit =>
      bool_decide (phase st = USER_INPUT)
      && Button_fires (general_submit_disabled st)
  | Click_start_ab random =>
      bool_decide (phase st = AB_TEST) && shows_start_step st
      && Qle_bool 0 random && negb (Qle_bool 1 random)
  | Choose selection _ =>
      bool_decide (phase st = AB_TEST) && shows_comparison st
      && match selection with
         | Selection.Equal => Button_fires (equal_disabled st)
         | _ => bool_decide (selection ∈ clickable_images)
         end
  | Settle _ _ _ => true
  end.

Definition with_ui (st : AppState) (w : World) : World :=
  {| ui := st; heap := heap w; net := net w; suspended := suspended w;
     readers := readers w |}.

Definition suspend (st : AppState) (n : Net) (a : Suspended) (w : World) : World :=
  {| ui := st; heap := heap w; net := n; suspended := suspended w ++ [a];
     readers := readers w |}.

Definition resume (i : nat) (st : AppState) (n : Net) (w : World) : World :=
  {| ui := st; heap := heap w; net := n; suspended := delete i (suspended w);
     readers := readers w |}.

(** The effect of an event that is offered. *)
Definition fire (e : Event) (w : World) : option World :=
  let st := ui w in
  match e with
  | Click_role role => Some (with_ui (commit (handleStart role st) st) w)
  | Pick_file =>
      Some {| ui := st; heap := heap w; net := net w; suspended := suspended w;
              readers := S (readers w) |}
  | Reader_loadend result =>
      match readers w with
      | O => None
      | S k =>
          Some {| ui := commit (reader_onloadend result) st; heap := heap w;
                  net := net w; suspended := suspended w; readers := k |}
      end
  | Type_prompt s => Some (with_ui (commit [setPrompt s] st) w)
  | Type_feedback s => Some (with_ui (commit [setTextFeedback s] st) w)
  | Slide idx val =>
      let '(h, queue) := slider_onChange idx val st (heap w) in
      Some {| ui := commit queue st; heap := h; net := net w;
              suspended := suspended w; readers := readers w |}
  | Click_generate =>
      match handleGenerateSingle_begin st (net w) with
      | None => Some w
      | Some (queue, t, n) =>
          Some (suspend (commit queue st) n (AwaitGenerateSingle t) w)
      end
  | Click_submit_eval now =>
      let '(h, queue) := handleSubmitSingleEval now st (heap w) in
      Some {| ui := commit queue st; heap := h; net := net w;
              suspended := suspended w; readers := readers w |}
  | Click_general_submit =>
      match handleGeneralUserSubmit_begin st (net w) with
      | None => Some w
      | Some (queue, (tA, tB), n) =>
          Some (suspend (commit queue st) n (AwaitGeneralUserSubmit tA tB) w)
      end
  | Click_start_ab random =>
      let '(queue, (tA, tB), n) :=
        handleStartProfessionalABTest_begin random st (net w) in
      Some (suspend (commit queue st) n (AwaitProfessionalABTest tA tB) w)
  | Choose selection now =>
      Some (with_ui (commit (handleABSelection selection now st) st) w)
  | Settle i respond first =>
      match suspended w !! i with
      | None => None
      | Some (AwaitGenerateSingle t) =>
          let '(r, n) := gti_finish respond t (net w) in
          Some (resume i (commit (handleGenerateSingle_resume r) st) n w)
      | Some (AwaitGeneralUserSubmit tA tB) =>
          let '(r, n) := pair_finish respond first tA tB (net w) in
          Some (resume i (commit (handleGeneralUserSubmit_resume r) st) n w)
      | Some (AwaitProfessionalABTest tA tB) =>
          let '(r, n) := pair_finish respond first tA tB (net w) in
          Some (resume i (commit (handleStartProfessionalABTest_resume r) st) n w)
      end
  end.

Definition step (e : Event) (w : World) : option World :=
  if offered e (ui w) then fire e w else None.

Fixpoint run (es : list Event) (w : World) : option World :=
  match es with
  | [] => Some w
  | e :: es' =>
      match step e w with
      | Some w' => run es' w'
      | None => None
      end
  end.

(** The states of one session: page reload starts another one. *)
Definition reachable (w : World) : Prop := ∃ es, run es initial_world = Some w.

(** What a record of a single evaluation holds, as the export would read
    it: the metric objects behind the locations. *)
Definition metric_values (h : Heap) (ls : list loc) : list (option EvaluationMetric.t) :=
  (λ l, h !! l) <$> ls.

Definition single_view (h : Heap) (r : SingleEvalResult.t)
    : jsstring * jsstring * list (option EvaluationMetric.t) * jsstring * Z :=
  (SingleEvalResult.prompt r, SingleEvalResult.image r,
   metric_values h (SingleEvalResult.metrics r),
   SingleEvalResult.feedback r, SingleEvalResult.timestamp r).

Definition singleEvals_view (w : World)
    : list (jsstring * jsstring * list (option EvaluationMetric.t) * jsstring * Z) :=
  single_view (heap w) <$> UserSession.singleEvals (session (ui w)).

(** The scores that the records of the session hold. *)
Definition recorded_scores (w : World) : list (list (option Q)) :=
  (λ r : SingleEvalResult.t,
     (λ l : loc, EvaluationMetric.score <$> heap w !! l)
       <$> SingleEvalResult.metrics r)
    <$> UserSession.singleEvals (session (ui w)).

(** The four metrics at their default score. *)
Definition default_metrics : list (option EvaluationMetric.t) :=
  (λ m, Some (EvaluationMetric.with_score 3 m)) <$> initial_heap.

(** The metric objects as the handlers expect them: the state holds four
    locations of the heap, and the objects of [INITIAL_METRICS] have kept
    everything but their score. *)
Definition metrics_ok (w : World) : Prop :=
  length (metrics (ui w)) = 4%nat
  ∧ Forall (λ l, l < length (heap w))%nat (metrics (ui w))
  ∧ EvaluationMetric.with_score 3 <$> take 4 (heap w)
    = EvaluationMetric.with_score 3 <$> initial_heap.

(** *** What holds of every state of a session *)

Definition is_general (a : Suspended) : bool :=
  match a with AwaitGeneralUserSubmit _ _ => true | _ => false end.

Definition is_single (a : Suspended) : bool :=
  match a with AwaitGenerateSingle _ => true | _ => false end.

Record Inv (w : World) : Prop :=
  { inv_metrics : metrics_ok w;
    inv_records :
      Forall (λ r, Forall (λ l, (l < length (heap w))%nat ∧ l ∉ metrics (ui w))
                     (SingleEvalResult.metrics r))
        (UserSession.singleEvals (session (ui w)));
    inv_single_len :
      (length (UserSession.singleEvals (session (ui w))) ≤ 1)%nat;
    inv_ab_len : (length (UserSession.abTests (session (ui w))) ≤ 1)%nat;
    inv_onboarding :
      phase (ui w) = ONBOARDING →
      suspended w = [] ∧ UserSession.singleEvals (session (ui w)) = []
      ∧ UserSession.abTests (session (ui w)) = []
      ∧ comparisonImages (ui w) = None;
    inv_user_input :
      phase (ui w) = USER_INPUT →
      UserSession.role (session (ui w)) = GENERAL_USER
      ∧ suspended w = [] ∧ comparisonImages (ui w) = None
      ∧ UserSession.abTests (session (ui w)) = [];
    inv_generation :
      phase (ui w) = GENERATION_EVAL →
      UserSession.role (session (ui w)) ≠ GENERAL_USER
      ∧ comparisonImages (ui w) = None
      ∧ UserSession.singleEvals (session (ui w)) = []
      ∧ UserSession.abTests (session (ui w)) = []
      ∧ Forall (λ a, is_single a = true) (suspended w);
    inv_general :
      UserSession.role (session (ui w)) = GENERAL_USER →
      UserSession.singleEvals (session (ui w)) = []
      ∧ (suspended w = []
         ∨ ∃ tA tB, suspended w = [AwaitGeneralUserSubmit tA tB]
             ∧ phase (ui w) = AB_TEST ∧ loading (ui w) = true
             ∧ comparisonImages (ui w) = None
             ∧ UserSession.abTests (session (ui w)) = []);
    inv_professional :
      UserSession.role (session (ui w)) ≠ GENERAL_USER →
      Forall (λ a, is_general a = false) (suspended w);
    inv_pair : is_Some (comparisonImages (ui w)) → loading (ui w) = false;
    inv_ab :
      UserSession.abTests (session (ui w)) ≠ [] → phase (ui w) = COMPLETED;
    inv_single :
      UserSession.singleEvals (session (ui w)) ≠ [] →
      phase (ui w) = AB_TEST ∨ phase (ui w) = COMPLETED }.

(** The order of the phases in the flow. *)
Definition phase_rank (p : TestPhase) : nat :=
  match p with
  | ONBOARDING => 0
  | USER_INPUT | GENERATION_EVAL => 1
  | AB_TEST => 2
  | COMPLETED => 3
  end.

Definition abTests_of (w : World) : list ABTestResult.t :=
  UserSession.abTests (session (ui w)).

(** The two submissions. *)
Definition is_single_submission (e : Event) : bool :=
  match e with Click_submit_eval _ => true | _ => false end.

Definition is_pairwise_submission (e : Event) : bool :=
  match e with Choose _ _ => true | _ => false end.

(** *** Sample sessions *)

Definition sample_image : Blob :=
  {| mimeType := lit "image/png"; data := lit "iVBORw0KGgo=" |}.

(** A service that answers every request with one image. *)
Definition respond_image : Oracle :=
  λ _ _, inr {| candidates :=
                  Some [{| content :=
                             Some {| parts :=
                                       Some [{| text := None;
                                                inlineData := Some sample_image |}] |} |}] |}.

(** A service that rejects every request. *)
Definition respond_failure : Oracle := λ _ _, inl (Rejection (lit "503")).

Definition after (es : list Event) : World :=
  default initial_world (run es initial_world).

(** A designer has typed a prompt and got an image. *)
Definition trace_rated : list Event :=
  [ Click_role DESIGNER; Type_prompt (lit "a red bicycle"); Click_generate;
    Settle 0 respond_image SideA; Slide 1 (9 # 2) ].

(** The designer has submitted the evaluation and got a comparison pair. *)
Definition trace_professional_pair : list Event :=
  trace_rated
  ++ [ Click_submit_eval 1700000000000; Click_start_ab (1 # 2);
       Settle 0 respond_image SideB ].

(** A designer rates the image of "a red bicycle" with every metric at its
    default and submits. *)
Definition trace_default_rating : list Event :=
  [ Click_role DESIGNER; Type_prompt (lit "a red bicycle"); Click_generate;
    Settle 0 respond_image SideA; Click_submit_eval 1700000000000 ].

(** A general user has uploaded a picture and typed an intent. *)
Definition trace_general_ready : list Event :=
  [ Click_role GENERAL_USER; Pick_file;
    Reader_loadend (Some (data_url sample_image));
    Type_prompt (lit "make it look like winter") ].

(** The general user has submitted and both images have come back. *)
Definition trace_general_pair : list Event :=
  trace_general_ready ++ [ Click_general_submit; Settle 0 respond_image SideA ].

(** The designer has typed a reason under the pair. *)
Definition trace_professional_reasoned : list Event :=
  trace_professional_pair ++ [ Type_feedback (lit "B keeps the spokes") ].

(** The designer has submitted the evaluation and not yet started the
    comparison. *)
Definition trace_professional_ab : list Event :=
  trace_rated ++ [ Click_submit_eval 1700000000000 ].

(** The service rejects the requests of the general user's pair. *)
Definition trace_general_failure : list Event :=
  trace_general_ready ++ [ Click_general_submit; Settle 0 respond_failure SideA ].

(** The service rejects the requests of the designer's pair. *)
Definition trace_professional_failure : list Event :=
  trace_professional_ab
  ++ [ Click_start_ab (1 # 2); Settle 0 respond_failure SideA ].

(** A payload broken over two lines, as base64 is in MIME bodies. *)
Definition wrapped_payload : Blob :=
  {| mimeType := lit "image/png"; data := lit "iVBORw0K" ++ [10] ++ lit "Ggo=" |}.

(** *** The calls without their effects

    What a call becomes at its [await] and what it settles with depend on
    the console in no way, and on the requests only through their number. *)

Definition start_task (prompt : jsstring) (referenceImage : option jsstring)
    (issued : nat) : Task :=
  match build_parts prompt referenceImage with
  | inl e => Settled (inl e)
  | inr parts => InFlight issued {| model := gemini_model; contents := parts |}
  end.

Definition start_requests (prompt : jsstring) (referenceImage : option jsstring)
    : list Request :=
  match build_parts prompt referenceImage with
  | inl _ => []
  | inr parts => [{| model := gemini_model; contents := parts |}]
  end.

Definition task_result (respond : Oracle) (t : Task) : JsError + jsstring :=
  match t with
  | Settled r => r
  | InFlight i req =>
      match respond i req with
      | inl e => inl e
      | inr response => extract_image response
      end
  end.


(** ** Further readings of the sources *)

(** A media type and a payload that the convention can carry: both are not
    empty, the media type is made of [[A-Za-z-+\/]] and the payload has no
    line terminator. *)
Definition well_formed (b : Blob) : bool :=
  truthy (mimeType b) && forallb mime_class (mimeType b)
  && truthy (data b) && forallb dot (data b).

(** What a call writes on the console when it starts and when it settles:
    the error it throws, if it throws one. *)
Definition error_entry (r : JsError + jsstring) : list LogEntry :=
  match r with
  | inl e => [ConsoleError (lit "Gemini Image Gen Error:") e]
  | inr _ => []
  end.

Definition start_log (t : Task) : list LogEntry :=
  match t with
  | Settled r => error_entry r
  | InFlight _ _ => []
  end.

Definition finish_log (respond : Oracle) (t : Task) : list LogEntry :=
  match t with
  | Settled _ => []
  | InFlight _ _ => error_entry (task_result respond t)
  end.

(** The two shapes of the requests that the App sends: a prompt alone, or a
    well-formed image followed by a prompt; the prompt is never blank. *)
Definition text_only (req : Request) : Prop :=
  ∃ p, contents req = [{| text := Some p; inlineData := None |}]
       ∧ forallb is_trimmed p = false.

Definition with_image (req : Request) : Prop :=
  ∃ b p, contents req = [ {| text := None; inlineData := Some b |};
                          {| text := Some p; inlineData := None |} ]
         ∧ well_formed b = true ∧ forallb is_trimmed p = false.

(** What holds of every state of a session, further. *)
Record Inv2 (w : World) : Prop :=
  { inv2_nodup : NoDup (metrics (ui w));
    inv2_experience : UserSession.experienceLevel (session (ui w)) = 5%Z;
    inv2_upload :
      phase (ui w) = ONBOARDING
      ∨ UserSession.role (session (ui w)) ≠ GENERAL_USER →
      uploadedImage (ui w) = None ∧ readers w = 0%nat;
    inv2_single_one :
      UserSession.role (session (ui w)) ≠ GENERAL_USER →
      phase (ui w) = AB_TEST ∨ phase (ui w) = COMPLETED →
      length (UserSession.singleEvals (session (ui w))) = 1%nat;
    inv2_completed :
      phase (ui w) = COMPLETED →
      length (UserSession.abTests (session (ui w))) = 1%nat;
    inv2_source :
      UserSession.role (session (ui w)) ≠ GENERAL_USER →
      Forall (λ r, ABTestResult.sourceImage r = None)
        (UserSession.abTests (session (ui w)));
    inv2_idle : suspended w = [] → loading (ui w) = false;
    inv2_fresh_net : phase (ui w) = ONBOARDING → requests (net w) = [];
    inv2_requests :
      Forall (λ req, model req = gemini_model
                     ∧ if decide (UserSession.role (session (ui w)) = GENERAL_USER)
                       then with_image req else text_only req)
        (requests (net w)) }.

(** [renderCompleted]: the data of the summary.  The choice and the
    reasoning are those of [session.abTests[0]], under
    [session.abTests.length > 0]. *)
Record CompletedView : Type :=
  { shown_role : jsstring;
    shown_test_type : jsstring;
    shown_choice : option Selection.t;
    shown_reasoning : option jsstring }.

Definition renderCompleted (st : AppState) : CompletedView :=
  let s := session st in
  {| shown_role := UserRole_value (UserSession.role s);
     shown_test_type :=
       if (0 <? length (UserSession.singleEvals s))%nat
       then lit "文本生成 + 对比" else lit "图生图对比";
     shown_choice :=
       if (0 <? length (UserSession.abTests s))%nat
       then ABTestResult.selectedImage <$> UserSession.abTests s !! 0%nat
       else None;
     shown_reasoning :=
       if (0 <? length (UserSession.abTests s))%nat
       then ABTestResult.reasoning <$> UserSession.abTests s !! 0%nat
       else None |}.

(** * Properties *)

(** ** The encoded-image convention *)

Section DataUrl.

Lemma match_lit_app (l : jsstring) (pos : nat) (s : jsstring) :
  match_lit l pos (l ++ s) = Some ((pos + length l)%nat, s).
Proof.
  revert pos; induction l as [|c l IH]; intros pos; cbn [match_lit length app].
  - by rewrite Nat.add_0_r.
  - rewrite N.eqb_refl, IH. do 2 f_equal. lia.
Qed.

(** A greedy repetition stops where the class stops, when the rest of the
    pattern accepts what follows. *)
Lemma plus_more_greedy (cls : N → bool) (m rest : jsstring) (pos : nat)
    (k : nat → jsstring → option (list jsstring)) (r : list jsstring) :
  forallb cls m = true →
  head rest ≫= (λ c, if cls c then Some c else None) = None →
  k (pos + length m)%nat rest = Some r →
  plus_more cls pos (m ++ rest) k = Some r.
Proof.
  revert pos; induction m as [|c m IH]; intros pos Hm Hrest Hk.
  - cbn [app length] in *. rewrite Nat.add_0_r in Hk.
    destruct rest as [|d rest]; cbn [plus_more]; [done|].
    cbn in Hrest. by destruct (cls d).
  - cbn [forallb] in Hm. apply andb_true_iff in Hm as [Hc Hm].
    cbn [app plus_more]. rewrite Hc.
    rewrite (IH (S pos)); [done..|].
    cbn [length] in Hk. by replace (S pos + length m)%nat with (pos + S (length m))%nat by lia.
Qed.

Lemma plus_greedy (cls : N → bool) (m rest : jsstring) (pos : nat)
    (k : nat → jsstring → option (list jsstring)) (r : list jsstring) :
  m ≠ [] →
  forallb cls m = true →
  head rest ≫= (λ c, if cls c then Some c else None) = None →
  k (pos + length m)%nat rest = Some r →
  plus cls pos (m ++ rest) k = Some r.
Proof.
  destruct m as [|c m]; [done|]. intros _ Hm Hrest Hk.
  cbn [forallb] in Hm. apply andb_true_iff in Hm as [Hc Hm].
  cbn [app plus]. rewrite Hc. apply plus_more_greedy; [done..|].
  cbn [length] in Hk. by replace (S pos + length m)%nat with (pos + S (length m))%nat by lia.
Qed.

Lemma str_match_data_url (m p : jsstring) :
  m ≠ [] → forallb mime_class m = true →
  p ≠ [] → forallb dot p = true →
  str_match data_url_re (lit "data:" ++ m ++ lit ";base64," ++ p)
  = Some [lit "data:" ++ m ++ lit ";base64," ++ p; m; p].
Proof.
  intros Hm Hmc Hp Hpd.
  unfold str_match, data_url_re.
  destruct (lit "data:" ++ m ++ lit ";base64," ++ p) as [|c0 s0] eqn:Hs.
  { by apply (f_equal length) in Hs. }
  rewrite <- Hs. clear c0 s0 Hs.
  set (whole := lit "data:" ++ m ++ lit ";base64," ++ p).
  assert (Hgo : rmatch data_url_re 0 whole []
            (λ pos' _ caps, Some (take (pos' - 0) whole :: caps))
          = Some [whole; m; p]).
  { unfold data_url_re. cbn [rmatch Nat.eqb]. unfold whole at 1.
    rewrite match_lit_app.
    erewrite plus_greedy; [reflexivity|done|done|by vm_compute|].
    rewrite match_lit_app.
    rewrite <- (app_nil_r p) at 1.
    erewrite plus_greedy; [reflexivity|done|done|done|].
    cbn [app]. f_equal.
    assert (Hlen : length whole = (0 + length (lit "data:") + length m
                     + length (lit ";base64,") + length p)%nat).
    { unfold whole. rewrite !length_app. lia. }
    f_equal; [|f_equal; [|f_equal]].
    - rewrite Nat.sub_0_r, <- Hlen. apply firstn_all.
    - replace (0 + length (lit "data:") + length m - (0 + length (lit "data:")))%nat
        with (length m) by lia.
      by rewrite take_app_length.
    - replace (0 + length (lit "data:") + length m + length (lit ";base64,") + length p
               - (0 + length (lit "data:") + length m + length (lit ";base64,")))%nat
        with (length p) by lia.
      apply firstn_all. }
  destruct whole as [|c s]; cbn [exec_from]; unfold data_url_re in Hgo; by rewrite Hgo.
Qed.

(** What [generateTestImage] returns is built by the template from the
    first inline part of the response. *)
Lemma extract_image_data_url (response : Response) (s : jsstring) :
  extract_image response = inr s → ∃ b, s = data_url b.
Proof.
  unfold extract_image.
  destruct (candidates response) as [cs|]; [|done].
  destruct (cs !! 0%nat) as [c|]; [|done].
  destruct (content c) as [ct|]; [|done].
  destruct (parts ct) as [ps|]; [|done].
  destruct (first_inline ps) as [b|]; [|done].
  intros [= <-]. by exists b.
Qed.

(** C3 (amended). For every non-empty media type made of characters of
    [A-Za-z-+/] and every non-empty payload without a line terminator, the
    encoding [data:<media-type>;base64,<payload>] is decoded by
    [parseBase64] into the same media type and payload. *)
Theorem parseBase64_data_url (b : Blob) :
  mimeType b ≠ [] → forallb mime_class (mimeType b) = true →
  data b ≠ [] → forallb dot (data b) = true →
  parseBase64 (data_url b) = inr b.
Proof.
  intros Hm Hmc Hp Hpd. unfold parseBase64, data_url.
  rewrite str_match_data_url by done. by destruct b.
Qed.

Lemma parseBase64_data_url_witness :
  parseBase64 (data_url sample_image) = inr sample_image.
Proof.
  apply parseBase64_data_url; vm_compute; congruence.
Defined.

(** C3 as it is stated fails on a payload that holds a line feed, which [.]
    does not match, and on the empty media type, which [+] does not
    match. *)
Lemma parseBase64_data_url_line_feed :
  (forallb mime_class (mimeType wrapped_payload) = true
   ∧ data wrapped_payload ≠ []
   ∧ parseBase64 (data_url wrapped_payload) = inl (Error (lit "Invalid input string")))
  ∧ (forallb mime_class [] = true
     ∧ parseBase64 (data_url {| mimeType := []; data := lit "iVBORw0KGgo=" |})
       = inl (Error (lit "Invalid input string"))).
Proof. vm_compute. repeat split; congruence. Qed.

End DataUrl.

(** ** The image-generation client *)

Section Client.

Variable respond : Oracle.

Ltac unfold_m :=
  cbv [generateTestImage gti_start gti_finish gti_resume try_catch bind ret
       throw lift log_and_rethrow console_error generateContent
       start_task start_requests task_result].

Lemma gti_start_fst (prompt : jsstring) (ref : option jsstring) (n : Net) :
  fst (gti_start prompt ref n) = start_task prompt ref (length (requests n)).
Proof. unfold_m. by destruct (build_parts prompt ref). Qed.

Lemma gti_start_requests (prompt : jsstring) (ref : option jsstring) (n : Net) :
  requests (snd (gti_start prompt ref n)) = requests n ++ start_requests prompt ref.
Proof.
  unfold_m. destruct (build_parts prompt ref); cbn [snd requests]; [|done].
  by rewrite app_nil_r.
Qed.

Lemma gti_finish_fst (t : Task) (n : Net) :
  fst (gti_finish respond t n) = task_result respond t.
Proof.
  destruct t as [[e|img]|i req]; unfold_m; [done..|].
  by destruct (respond i req) as [e|resp]; [|destruct (extract_image resp)].
Qed.

Lemma gti_finish_requests (t : Task) (n : Net) :
  requests (snd (gti_finish respond t n)) = requests n.
Proof.
  destruct t as [[e|img]|i req]; unfold_m; [done..|].
  by destruct (respond i req) as [e|resp]; [|destruct (extract_image resp)].
Qed.

(** A call is its synchronous start followed by its completion. *)
Lemma generateTestImage_split (prompt : jsstring) (ref : option jsstring) (n : Net) :
  generateTestImage respond prompt ref n
  = gti_finish respond (fst (gti_start prompt ref n)) (snd (gti_start prompt ref n)).
Proof.
  unfold_m. destruct (build_parts prompt ref) as [e|ps]; [done|].
  cbn [fst snd requests console].
  by destruct (respond _ _) as [e|resp]; [|destruct (extract_image resp)].
Qed.

Lemma generateTestImage_fst (prompt : jsstring) (ref : option jsstring) (n : Net) :
  fst (generateTestImage respond prompt ref n)
  = task_result respond (start_task prompt ref (length (requests n))).
Proof. by rewrite generateTestImage_split, gti_finish_fst, gti_start_fst. Qed.

Lemma generateTestImage_requests (prompt : jsstring) (ref : option jsstring)
    (n : Net) :
  requests (snd (generateTestImage respond prompt ref n))
  = requests n ++ start_requests prompt ref.
Proof. by rewrite generateTestImage_split, gti_finish_requests, gti_start_requests. Qed.

Lemma pair_finish_fst (first : Side) (tA tB : Task) (n : Net) :
  fst (pair_finish respond first tA tB n)
  = match all_settled (settles_first first tA tB)
            (task_result respond tA) (task_result respond tB) with
    | inl e => inl e
    | inr res => inr (to_pair res)
    end.
Proof.
  unfold pair_finish, bind, finish_all2.
  destruct (settles_first first tA tB).
  - pose proof (gti_finish_fst tA n) as H1.
    destruct (gti_finish respond tA n) as [rA n1].
    pose proof (gti_finish_fst tB n1) as H2.
    destruct (gti_finish respond tB n1) as [rB n2]. cbn [fst] in *. subst.
    by destruct (all_settled _ _ _).
  - pose proof (gti_finish_fst tB n) as H1.
    destruct (gti_finish respond tB n) as [rB n1].
    pose proof (gti_finish_fst tA n1) as H2.
    destruct (gti_finish respond tA n1) as [rA n2]. cbn [fst] in *. subst.
    by destruct (all_settled _ _ _).
Qed.

Lemma pair_finish_requests (first : Side) (tA tB : Task) (n : Net) :
  requests (snd (pair_finish respond first tA tB n)) = requests n.
Proof.
  unfold pair_finish, bind, finish_all2.
  destruct (settles_first first tA tB).
  - pose proof (gti_finish_requests tA n) as H1.
    destruct (gti_finish respond tA n) as [rA n1].
    pose proof (gti_finish_requests tB n1) as H2.
    destruct (gti_finish respond tB n1) as [rB n2]. cbn [snd] in *.
    destruct (all_settled SideA rA rB); cbn [snd ret]; congruence.
  - pose proof (gti_finish_requests tB n) as H1.
    destruct (gti_finish respond tB n) as [rB n1].
    pose proof (gti_finish_requests tA n1) as H2.
    destruct (gti_finish respond tA n1) as [rA n2]. cbn [snd] in *.
    destruct (all_settled SideB rA rB); cbn [snd ret]; congruence.
Qed.

Lemma generateComparisonPair_split (first : Side) (prompt : jsstring)
    (ref : option jsstring) (n : Net) :
  generateComparisonPair respond first prompt ref n
  = let '(tA, n1) := gti_start (prompt ++ lit " --v 1") ref n in
    let '(tB, n2) := gti_start (prompt ++ lit " --v 2") ref n1 in
    pair_finish respond first tA tB n2.
Proof.
  unfold generateComparisonPair, promise_all2, pair_finish, bind.
  destruct (gti_start _ ref n) as [tA n1].
  by destruct (gti_start _ ref n1) as [tB n2].
Qed.

(** The pair without its effects: the two tasks, the second issued after
    the requests of the first, and the aggregate of their results. *)
Lemma generateComparisonPair_fst (first : Side) (prompt : jsstring)
    (ref : option jsstring) (n : Net) :
  let tA := start_task (prompt ++ lit " --v 1") ref (length (requests n)) in
  let tB := start_task (prompt ++ lit " --v 2") ref
              (length (requests n ++ start_requests (prompt ++ lit " --v 1") ref)) in
  fst (generateComparisonPair respond first prompt ref n)
  = match all_settled (settles_first first tA tB)
            (task_result respond tA) (task_result respond tB) with
    | inl e => inl e
    | inr res => inr (to_pair res)
    end.
Proof.
  intros tA tB. rewrite generateComparisonPair_split.
  pose proof (gti_start_fst (prompt ++ lit " --v 1") ref n) as HA.
  pose proof (gti_start_requests (prompt ++ lit " --v 1") ref n) as HAr.
  destruct (gti_start (prompt ++ lit " --v 1") ref n) as [tA' n1].
  pose proof (gti_start_fst (prompt ++ lit " --v 2") ref n1) as HB.
  destruct (gti_start (prompt ++ lit " --v 2") ref n1) as [tB' n2].
  cbn [fst snd] in *. rewrite HAr in HB. subst tA' tB'.
  apply pair_finish_fst.
Qed.

(** What the two calls of a pair send to the service: one request each, in
    the order of the array, unless the reference image does not parse. *)
Lemma generateComparisonPair_requests (first : Side) (prompt : jsstring)
    (ref : option jsstring) (n : Net) :
  requests (snd (generateComparisonPair respond first prompt ref n))
  = requests n ++ start_requests (prompt ++ lit " --v 1") ref
      ++ start_requests (prompt ++ lit " --v 2") ref.
Proof.
  rewrite generateComparisonPair_split.
  pose proof (gti_start_requests (prompt ++ lit " --v 1") ref n) as HA.
  destruct (gti_start (prompt ++ lit " --v 1") ref n) as [tA n1].
  pose proof (gti_start_requests (prompt ++ lit " --v 2") ref n1) as HB.
  destruct (gti_start (prompt ++ lit " --v 2") ref n1) as [tB n2].
  cbn [snd] in *. by rewrite pair_finish_requests, HB, HA, <- app_assoc.
Qed.

(** A failed call always leaves an entry on the console, a call that
    succeeds leaves none. *)
Lemma generateTestImage_logs (prompt : jsstring) (ref : option jsstring) (n : Net) :
  match generateTestImage respond prompt ref n with
  | (inl e, n') =>
      console n' = console n ++ [ConsoleError (lit "Gemini Image Gen Error:") e]
  | (inr _, n') => console n' = console n
  end.
Proof.
  unfold_m. destruct (build_parts prompt ref) as [e|ps]; [done|].
  by destruct (respond _ _) as [e|resp]; [|destruct (extract_image resp)].
Qed.

(** The error of a response without an image, when the response has no
    array of candidates or has a first candidate. *)
Lemma extract_image_no_inline (response : Response) :
  candidates response ≠ Some [] →
  (∀ c ct ps, candidates response ≫= head = Some c → content c = Some ct →
              parts ct = Some ps → first_inline ps = None) →
  extract_image response = inl (Error (lit "No image data found in response")).
Proof.
  intros Hne Hnone. unfold extract_image.
  destruct (candidates response) as [[|c cs]|]; [done| |done].
  cbn [lookup list_lookup]. cbn in Hnone.
  destruct (content c) as [ct|] eqn:Hct; [|done].
  destruct (parts ct) as [ps|] eqn:Hps; [|done].
  by rewrite (Hnone c ct ps).
Qed.

End Client.

(** C8 (the input on which the code departs from it). A response whose
    array of candidates is empty carries no image, and the call fails with
    the [TypeError] of reading [candidates[0].content], which is logged and
    propagated, not with the error for a missing image. *)
Theorem generateTestImage_empty_candidates (prompt : jsstring) (n : Net) :
  let respond : Oracle := λ _ _, inr {| candidates := Some [] |} in
  let out := generateTestImage respond prompt None n in
  fst out
  = inl (TypeError (lit "Cannot read properties of undefined (reading 'content')"))
  ∧ fst out ≠ inl (Error (lit "No image data found in response"))
  ∧ console (snd out)
    = console n
      ++ [ConsoleError (lit "Gemini Image Gen Error:")
            (TypeError
               (lit "Cannot read properties of undefined (reading 'content')"))].
Proof. intros respond out. by repeat split. Qed.

(** What the client does on every other response without an image, and on
    a rejection of the service: the error for a missing image, resp. the
    rejection itself, after an entry on the console. *)
Lemma generateTestImage_failures (respond : Oracle) (prompt : jsstring)
    (ref : option jsstring) (n : Net) (ps : list Part) :
  build_parts prompt ref = inr ps →
  let req := {| model := gemini_model; contents := ps |} in
  let out := generateTestImage respond prompt ref n in
  match respond (length (requests n)) req with
  | inl e =>
      fst out = inl e
      ∧ console (snd out)
        = console n ++ [ConsoleError (lit "Gemini Image Gen Error:") e]
  | inr response =>
      candidates response ≠ Some [] →
      (∀ c ct ps', candidates response ≫= head = Some c → content c = Some ct →
                   parts ct = Some ps' → first_inline ps' = None) →
      fst out = inl (Error (lit "No image data found in response"))
      ∧ console (snd out)
        = console n
          ++ [ConsoleError (lit "Gemini Image Gen Error:")
                (Error (lit "No image data found in response"))]
  end.
Proof.
  intros Hps req out. subst out req.
  pose proof (generateTestImage_logs respond prompt ref n) as Hlog.
  pose proof (generateTestImage_fst respond prompt ref n) as Hfst.
  unfold start_task, task_result in Hfst. rewrite Hps in Hfst.
  destruct (respond _ _) as [e|response].
  - destruct (generateTestImage respond prompt ref n) as [[e'|img] n'];
      cbn [fst snd] in *; by simplify_eq.
  - intros Hne Hnone. rewrite (extract_image_no_inline _ Hne Hnone) in Hfst.
    destruct (generateTestImage respond prompt ref n) as [[e'|img] n'];
      cbn [fst snd] in *; by simplify_eq.
Qed.

(** ** The session *)

(** The members of [UserRole] have different values, so that [===] on
    roles is equality of the members. *)
Lemma UserRole_value_inj (r1 r2 : UserRole) :
  UserRole_value r1 = UserRole_value r2 → r1 = r2.
Proof. destruct r1, r2; vm_compute; congruence. Qed.

(** Reduction of the projections of the records and of the update queue,
    and of nothing else. *)
Ltac proj_simpl :=
  cbn [ui heap net suspended readers with_ui suspend resume
       phase session prompt uploadedImage loading generatedImage
       comparisonImages metrics textFeedback error
       commit foldl apply_update fst snd
       UserSession.role UserSession.experienceLevel UserSession.singleEvals
       UserSession.abTests UserSession.with_role UserSession.add_singleEval
       UserSession.add_abTest
       SingleEvalResult.prompt SingleEvalResult.image SingleEvalResult.metrics
       SingleEvalResult.feedback SingleEvalResult.timestamp
       ABTestResult.prompt ABTestResult.sourceImage ABTestResult.imageA
       ABTestResult.imageB ABTestResult.selectedImage ABTestResult.reasoning
       ABTestResult.timestamp] in *.

Section Handlers.

Implicit Types (w : World) (st : AppState) (now : Z).

(** C4. Selecting a role at ONBOARDING is offered for every role, stores the
    role in the session and enters USER_INPUT for the general user and
    GENERATION_EVAL for every other role; nothing else of the session
    changes. *)
Theorem handleStart_routes (role : UserRole) w :
  phase (ui w) = ONBOARDING →
  role ∈ UserRole_values
  ∧ ∃ w', step (Click_role role) w = Some w'
    ∧ phase (ui w')
      = match role with
        | GENERAL_USER => USER_INPUT
        | _ => GENERATION_EVAL
        end
    ∧ UserSession.role (session (ui w')) = role
    ∧ UserSession.experienceLevel (session (ui w'))
      = UserSession.experienceLevel (session (ui w))
    ∧ UserSession.singleEvals (session (ui w'))
      = UserSession.singleEvals (session (ui w))
    ∧ UserSession.abTests (session (ui w'))
      = UserSession.abTests (session (ui w)).
Proof.
  intros Hph. split.
  { unfold UserRole_values. destruct role; repeat constructor. }
  unfold step. cbn [offered]. rewrite Hph. cbn [fire].
  eexists; split; [reflexivity|].
  destruct w as [st h n su rd]; destruct st; cbn in *.
  by destruct role.
Qed.

Lemma handleStart_routes_witness :
  ∃ w', step (Click_role DESIGNER) initial_world = Some w'
        ∧ phase (ui w') = GENERATION_EVAL
        ∧ UserSession.role (session (ui w')) = DESIGNER.
Proof.
  destruct (handleStart_routes DESIGNER initial_world eq_refl)
    as (_ & w' & Hs & Hp & Hr & _).
  by exists w'.
Defined.

(** The queue of [handleABSelection] and its effect. *)
Lemma handleABSelection_queue (selection : Selection.t) now st
    (images : Pair.t) :
  comparisonImages st = Some images →
  ∃ r,
    handleABSelection selection now st
    = [setSession (UserSession.add_abTest r); setPhase COMPLETED]
    ∧ ABTestResult.selectedImage r = selection
    ∧ ABTestResult.reasoning r = textFeedback st
    ∧ ABTestResult.imageA r = Pair.A images
    ∧ ABTestResult.imageB r = Pair.B images
    ∧ ABTestResult.prompt r = prompt st
    ∧ ABTestResult.timestamp r = now
    ∧ (let st1 := commit [setSession (UserSession.add_abTest r)] st in
       UserSession.abTests (session st1) = UserSession.abTests (session st) ++ [r]
       ∧ phase st1 = phase st)
    ∧ (let st' := commit (handleABSelection selection now st) st in
       UserSession.abTests (session st') = UserSession.abTests (session st) ++ [r]
       ∧ UserSession.singleEvals (session st')
         = UserSession.singleEvals (session st)
       ∧ phase st' = COMPLETED).
Proof.
  intros Himg. unfold handleABSelection. rewrite Himg.
  eexists; split; [reflexivity|].
  by destruct st.
Qed.

(** C5. With a comparison pair on display, a choice queues the update that
    appends one record, with the choice, the feedback text, the pair, the
    prompt and the time of the submission, and after it the update of the
    phase to COMPLETED. *)
Theorem handleABSelection_records (selection : Selection.t) now st
    (images : Pair.t) :
  comparisonImages st = Some images →
  ∃ r,
    handleABSelection selection now st
    = [setSession (UserSession.add_abTest r); setPhase COMPLETED]
    ∧ ABTestResult.selectedImage r = selection
    ∧ ABTestResult.reasoning r = textFeedback st
    ∧ ABTestResult.imageA r = Pair.A images
    ∧ ABTestResult.imageB r = Pair.B images
    ∧ ABTestResult.prompt r = prompt st
    ∧ ABTestResult.timestamp r = now
    ∧ (let st1 := commit [setSession (UserSession.add_abTest r)] st in
       UserSession.abTests (session st1) = UserSession.abTests (session st) ++ [r]
       ∧ phase st1 = phase st)
    ∧ (let st' := commit (handleABSelection selection now st) st in
       UserSession.abTests (session st') = UserSession.abTests (session st) ++ [r]
       ∧ UserSession.singleEvals (session st')
         = UserSession.singleEvals (session st)
       ∧ phase st' = COMPLETED).
Proof. apply handleABSelection_queue. Qed.

Lemma handleABSelection_records_witness :
  ∃ r,
    handleABSelection Selection.B 7 (ui (after trace_professional_pair))
    = [setSession (UserSession.add_abTest r); setPhase COMPLETED]
    ∧ ABTestResult.selectedImage r = Selection.B.
Proof.
  assert (Hpair : comparisonImages (ui (after trace_professional_pair))
                  = Some {| Pair.A := data_url sample_image;
                            Pair.B := data_url sample_image |})
    by (vm_compute; reflexivity).
  destruct (handleABSelection_records Selection.B 7
              (ui (after trace_professional_pair)) _ Hpair) as (r & Hq & Hs & _).
  exists r. split; [exact Hq|exact Hs].
Defined.

Lemma metrics_ok_initial_objects w :
  metrics_ok w →
  EvaluationMetric.with_score 3 <$> omap (λ l, heap w !! l) INITIAL_METRICS
  = EvaluationMetric.with_score 3 <$> initial_heap.
Proof.
  intros (_ & _ & <-).
  destruct (heap w) as [|a [|b [|c [|d h]]]] eqn:Hh; try done.
  all: intros; exfalso;
    match goal with H : metrics_ok _ |- _ => destruct H as (_ & _ & H) end;
    rewrite Hh in H; by apply (f_equal length) in H.
Qed.

Lemma metric_values_app (h extra : Heap) (ls : list loc) :
  Forall (λ l, l < length h)%nat ls →
  metric_values (h ++ extra) ls = metric_values h ls.
Proof.
  intros Hls. unfold metric_values. apply list_fmap_ext.
  intros i l Hl. apply lookup_app_l.
  by apply (Forall_lookup_1 _ _ _ _ Hls Hl).
Qed.

Lemma metric_values_fresh (h extra : Heap) :
  metric_values (h ++ extra) (seq (length h) (length extra)) = Some <$> extra.
Proof.
  unfold metric_values. apply list_eq. intros i.
  rewrite !list_lookup_fmap.
  destruct (decide (i < length extra)%nat) as [Hi|Hi].
  - rewrite lookup_seq_lt by done. cbn.
    rewrite lookup_app_r by lia.
    replace (length h + i - length h)%nat with i by lia.
    by destruct (lookup_lt_is_Some_2 extra i Hi) as [m ->].
  - rewrite lookup_seq_ge by lia. by rewrite lookup_ge_None_2 by lia.
Qed.

Lemma metric_values_alter (h : Heap) (f : EvaluationMetric.t → EvaluationMetric.t)
    (l : loc) (ls : list loc) :
  l ∉ ls → metric_values (alter f l h) ls = metric_values h ls.
Proof.
  intros Hl. unfold metric_values. apply list_fmap_ext.
  intros i l' Hl'. apply list_lookup_alter_ne.
  intros ->. apply Hl. by eapply list_elem_of_lookup_2.
Qed.

(** The effect of [handleSubmitSingleEval] when there is an image: the
    record, the reset of the metrics and the order of the updates. *)
Lemma handleSubmitSingleEval_effect now w :
  metrics_ok w →
  truthy_opt (generatedImage (ui w)) = true →
  ∃ w' r,
    fire (Click_submit_eval now) w = Some w'
    ∧ snd (handleSubmitSingleEval now (ui w) (heap w))
      = [ setSession (UserSession.add_singleEval r); setGeneratedImage None;
          setPrompt []; setMetrics (metrics (ui w')); setTextFeedback [];
          setPhase AB_TEST ]
    ∧ phase (commit [setSession (UserSession.add_singleEval r)] (ui w))
      = phase (ui w)
    ∧ UserSession.singleEvals (session (ui w'))
      = UserSession.singleEvals (session (ui w)) ++ [r]
    ∧ UserSession.abTests (session (ui w'))
      = UserSession.abTests (session (ui w))
    ∧ length (SingleEvalResult.metrics r) = 4%nat
    ∧ metric_values (heap w') (SingleEvalResult.metrics r)
      = metric_values (heap w) (metrics (ui w))
    ∧ (∀ idx val,
         metric_values (fst (slider_onChange idx val (ui w') (heap w')))
           (SingleEvalResult.metrics r)
         = metric_values (heap w) (metrics (ui w)))
    ∧ generatedImage (ui w) = Some (SingleEvalResult.image r)
    ∧ SingleEvalResult.prompt r = prompt (ui w)
    ∧ SingleEvalResult.feedback r = textFeedback (ui w)
    ∧ SingleEvalResult.timestamp r = now
    ∧ metric_values (heap w') (metrics (ui w')) = default_metrics
    ∧ phase (ui w') = AB_TEST.
Proof.
  intros Hok Hgen.
  pose proof (metrics_ok_initial_objects w Hok) as Hfresh.
  destruct Hok as (Hlen & Hvalid & _).
  destruct w as [st h n su rd]; cbn [ui heap] in *.
  unfold fire, handleSubmitSingleEval; cbn [ui heap].
  destruct (generatedImage st) as [img|] eqn:Himg; [|done].
  cbn [truthy_opt] in Hgen. rewrite Hgen, Hfresh. clear Hfresh.
  eexists _, _. split; [reflexivity|].
  split; [by destruct st|].
  assert (Hsnap : metric_values
            (h ++ (EvaluationMetric.with_score 3 <$> initial_heap)) (metrics st)
          = metric_values h (metrics st)) by by apply metric_values_app.
  set (fresh := EvaluationMetric.with_score 3 <$> initial_heap) in *.
  destruct st; proj_simpl. repeat split; try done.
  - intros idx val. unfold slider_onChange; cbn [metrics].
    destruct (_ !! idx) as [l|] eqn:Hl; cbn [fst]; [|done].
    rewrite metric_values_alter; [done|].
    apply lookup_seq in Hl as [-> _].
    intros Hin. rewrite Forall_forall in Hvalid. apply Hvalid in Hin. lia.
  - rewrite metric_values_fresh. unfold fresh, default_metrics.
    by rewrite <- list_fmap_compose.
Qed.

(** C10. A handler whose input is missing returns at once: nothing of the
    state, of the heap, of the requests sent or of the suspended handlers
    changes. *)
Theorem handlers_return_without_input w :
  (∀ now, truthy_opt (generatedImage (ui w)) = false →
          fire (Click_submit_eval now) w = Some w)
  ∧ (∀ selection now, comparisonImages (ui w) = None →
          fire (Choose selection now) w = Some w)
  ∧ (truthy_opt (uploadedImage (ui w)) = false ∨ trim (prompt (ui w)) = [] →
          fire Click_general_submit w = Some w)
  ∧ (trim (prompt (ui w)) = [] → fire Click_generate w = Some w).
Proof.
  destruct w as [st h n su rd]. repeat split.
  - intros now Hgen. unfold fire, handleSubmitSingleEval; cbn [ui heap] in *.
    destruct (generatedImage st) as [img|]; cbn in Hgen; [rewrite Hgen|]; done.
  - intros selection now Hnone. unfold fire, handleABSelection; cbn [ui] in *.
    by rewrite Hnone.
  - intros Hmiss. unfold fire, handleGeneralUserSubmit_begin; cbn [ui net] in *.
    destruct Hmiss as [-> | ->]; [done|]. by rewrite orb_true_r.
  - intros Hblank. unfold fire, handleGenerateSingle_begin; cbn [ui net] in *.
    by rewrite Hblank.
Qed.

Lemma handlers_return_without_input_witness :
  fire (Click_submit_eval 0) initial_world = Some initial_world
  ∧ fire (Choose Selection.A 0) initial_world = Some initial_world
  ∧ fire Click_general_submit initial_world = Some initial_world
  ∧ fire Click_generate initial_world = Some initial_world.
Proof.
  destruct (handlers_return_without_input initial_world) as (H1 & H2 & H3 & H4).
  split; [apply H1; reflexivity|].
  split; [apply H2; reflexivity|].
  split; [apply H3; left; reflexivity | apply H4; reflexivity].
Defined.

End Handlers.

(** ** The states of a session *)

Section Reachable.

Implicit Types (w : World) (st : AppState) (e : Event).

Ltac bool_hyps :=
  repeat match goal with
    | H : _ && _ = true |- _ => apply andb_true_iff in H as [? ?]
    | H : _ || _ = false |- _ => apply orb_false_iff in H as [? ?]
    | H : negb _ = true |- _ => apply negb_true_iff in H
    | H : negb _ = false |- _ => apply negb_false_iff in H
    | H : bool_decide _ = true |- _ => apply bool_decide_eq_true in H
    | H : bool_decide _ = false |- _ => apply bool_decide_eq_false in H
    end.

Ltac open_world w st ses :=
  destruct w as [st hp nt su rd];
  destruct st as [ph ses pr up lo ge co me te er];
  destruct ses as [ro ex sev abt]; proj_simpl.

Lemma Inv_initial : Inv initial_world.
Proof.
  split; try done; cbn; intros; by repeat constructor.
Qed.

Lemma Inv_ui_only w st :
  Inv w →
  phase st = phase (ui w) → session st = session (ui w) →
  loading st = loading (ui w) →
  comparisonImages st = comparisonImages (ui w) →
  metrics st = metrics (ui w) →
  ∀ rd, Inv {| ui := st; heap := heap w; net := net w;
               suspended := suspended w; readers := rd |}.
Proof.
  intros [] Hp Hs Hl Hc Hm rd.
  split; unfold metrics_ok in *; proj_simpl; rewrite ?Hp, ?Hs, ?Hl, ?Hc, ?Hm; done.
Qed.

Lemma with_score_alter (v : Q) (l : loc) (h : Heap) :
  EvaluationMetric.with_score 3 <$> take 4 (alter (EvaluationMetric.with_score v) l h)
  = EvaluationMetric.with_score 3 <$> take 4 h.
Proof.
  apply list_eq. intros i. rewrite !list_lookup_fmap.
  destruct (decide (i < 4)%nat) as [Hi|Hi].
  - rewrite !lookup_take_lt by done.
    destruct (decide (l = i)) as [->|Hne].
    + rewrite list_lookup_alter_eq. by destruct (h !! i).
    + by rewrite list_lookup_alter_ne.
  - by rewrite !lookup_take_ge by lia.
Qed.

Lemma Inv_slide w idx val :
  Inv w →
  Inv {| ui := commit (snd (slider_onChange idx val (ui w) (heap w))) (ui w);
         heap := fst (slider_onChange idx val (ui w) (heap w));
         net := net w; suspended := suspended w; readers := readers w |}.
Proof.
  intros Hinv. unfold slider_onChange.
  destruct (metrics (ui w) !! idx) as [l|] eqn:Hl; cbn [fst snd].
  - destruct Hinv as [(Hlen & Hvalid & Hinit) Hrec ? ? ? ? ? ? ? ? ? ?].
    open_world w st ses.
    split; proj_simpl; try done.
    + unfold metrics_ok; proj_simpl. rewrite length_alter, with_score_alter. done.
    + by rewrite length_alter.
  - destruct w as [st ? ? ? ?]. by destruct st.
Qed.

Lemma Inv_submit w now :
  Inv w → phase (ui w) = GENERATION_EVAL →
  Inv {| ui := commit (snd (handleSubmitSingleEval now (ui w) (heap w))) (ui w);
         heap := fst (handleSubmitSingleEval now (ui w) (heap w));
         net := net w; suspended := suspended w; readers := readers w |}.
Proof.
  intros Hinv Hph. unfold handleSubmitSingleEval.
  destruct (generatedImage (ui w)) as [img|] eqn:Himg; cbn [fst snd];
    [destruct (truthy img)|]; cbn [fst snd];
    try (destruct w as [st ? ? ? ?]; by destruct st).
  pose proof (metrics_ok_initial_objects w (inv_metrics w Hinv)) as Hfresh.
  rewrite Hfresh.
  destruct Hinv as [(Hlen & Hvalid & Hinit) Hrec ? ? ? ? Hgen Hgeneral Hprof ? ? ?].
  destruct (Hgen Hph) as (Hrole & Hnone & Hs & Hab & Hsusp).
  open_world w st ses. simplify_eq.
  assert (H4 : (4 ≤ length hp)%nat).
  { apply (f_equal length) in Hinit.
    rewrite !length_fmap, length_take in Hinit.
    unfold initial_heap in Hinit. cbn [length] in Hinit. lia. }
  split; proj_simpl; try done.
  - unfold metrics_ok; proj_simpl. split; [done|]. split.
    + apply Forall_forall. intros l Hl. apply elem_of_seq in Hl.
      rewrite length_app. lia.
    + by rewrite take_app_le by lia.
  - repeat constructor. proj_simpl.
    apply Forall_forall. intros l Hl. rewrite Forall_forall in Hvalid.
    apply Hvalid in Hl. rewrite length_app. split; [lia|].
    rewrite elem_of_seq. lia.
  - by left.
Qed.

Lemma Inv_step e w w' : Inv w → step e w = Some w' → Inv w'.
Proof.
  intros Hinv Hstep. unfold step in Hstep.
  destruct (offered e (ui w)) eqn:Hoff; [|done].
  destruct e; cbn [offered fire] in Hoff, Hstep; bool_hyps.
  - (* Click_role *)
    simplify_eq. unfold handleStart.
    destruct Hinv as [Hm Hrec ? ? Hon ? ? ? ? ? ? ?].
    open_world w st ses. simplify_eq. destruct (Hon eq_refl) as (-> & -> & -> & ->).
    split; unfold metrics_ok in *; proj_simpl; try done;
      destruct role; proj_simpl; intros; simplify_eq; auto.
  - (* Pick_file *)
    simplify_eq. by apply Inv_ui_only.
  - (* Reader_loadend *)
    destruct (readers w) eqn:Hrd; simplify_eq.
    apply Inv_ui_only; [done|..]; destruct w as [st ? ? ? ?]; by destruct st.
  - (* Type_prompt *)
    simplify_eq. apply (Inv_ui_only w); [done|..]; destruct w as [st ? ? ? ?]; by destruct st.
  - (* Type_feedback *)
    simplify_eq. apply (Inv_ui_only w); [done|..]; destruct w as [st ? ? ? ?]; by destruct st.
  - (* Slide *)
    pose proof (Inv_slide w idx val Hinv) as Hs.
    destruct (slider_onChange idx val (ui w) (heap w)). by simplify_eq.
  - (* Click_generate *)
    unfold handleGenerateSingle_begin in Hstep.
    destruct (negb (truthy (trim (prompt (ui w))))); [by simplify_eq|].
    destruct (gti_start (prompt (ui w)) None (net w)) as [t n']. simplify_eq.
    destruct Hinv as [Hm Hrec ? ? ? ? Hgen ? ? ? ? ?].
    open_world w st ses. simplify_eq.
    destruct (Hgen eq_refl) as (Hrole & -> & -> & -> & Hsu).
    split; unfold metrics_ok in *; proj_simpl; try done.
    + intros _. repeat split; try done. apply Forall_app. by repeat constructor.
    + intros _. apply Forall_app. split; [auto|by repeat constructor].
  - (* Click_submit_eval *)
    pose proof (Inv_submit w now Hinv) as Hs.
    destruct (handleSubmitSingleEval now (ui w) (heap w)). simplify_eq. auto.
  - (* Click_general_submit *)
    unfold handleGeneralUserSubmit_begin in Hstep.
    destruct (_ || _); [by simplify_eq|].
    destruct (gti_start _ _ (net w)) as [tA n1].
    destruct (gti_start _ _ n1) as [tB n2]. simplify_eq.
    destruct Hinv as [Hm Hrec ? ? ? Hui ? Hgeneral ? ? ? ?].
    open_world w st ses. simplify_eq.
    destruct (Hui eq_refl) as (-> & -> & -> & ->).
    destruct (Hgeneral eq_refl) as [-> _].
    split; unfold metrics_ok in *; proj_simpl; try done.
    + intros _. split; [done|]. right. by exists tA, tB.
  - (* Click_start_ab *)
    unfold handleStartProfessionalABTest_begin in Hstep.
    destruct (gti_start _ _ (net w)) as [tA n1].
    destruct (gti_start _ _ n1) as [tB n2]. simplify_eq.
    unfold shows_start_step, isGeneralUser in *. bool_hyps.
    destruct Hinv as [Hm Hrec ? ? ? ? ? ? Hprof ? ? ?].
    open_world w st ses. simplify_eq.
    split; unfold metrics_ok in *; proj_simpl; try done.
    + intros _. apply Forall_app. split; [auto|by repeat constructor].
  - (* Choose *)
    simplify_eq. unfold shows_comparison, handleABSelection in *. bool_hyps.
    destruct Hinv as [Hm Hrec ? ? ? ? ? Hgeneral ? ? Hab ?].
    open_world w st ses. simplify_eq.
    destruct co as [images|];
      [|by match goal with H : is_Some None |- _ => destruct H end].
    assert (abt = []) as ->.
    { destruct abt; [done|]. by specialize (Hab ltac:(done)). }
    split; unfold metrics_ok in *; proj_simpl; try done.
    + intros ->. destruct (Hgeneral eq_refl) as [-> [->|(tA & tB & _ & _ & _ & [=] & _)]].
      split; [done|by left].
    + auto.
  - (* Settle *)
    destruct (suspended w !! i) as [a|] eqn:Ha; [|done].
    destruct a as [t|tA tB|tA tB].
    + destruct (gti_finish respond t (net w)) as [r n']. simplify_eq.
      destruct Hinv as [Hm Hrec ? ? Hon Hui Hgen Hgeneral Hprof ? ? ?].
      open_world w st ses. simplify_eq.
      assert (Hrole : ro ≠ GENERAL_USER).
      { intros ->. destruct (Hgeneral eq_refl) as [_ [->|(tA & tB & -> & _)]];
          [done|by destruct i]. }
      destruct r as [err|img]; unfold handleGenerateSingle_resume;
        split; unfold metrics_ok in *; proj_simpl; try done;
        try (intros ->; by destruct (Hon eq_refl) as [-> _]);
        try (intros ->; by destruct (Hui eq_refl) as (? & -> & _));
        try (intros Hp; destruct (Hgen Hp) as (? & ? & ? & ? & ?);
             repeat split; try done; by apply Forall_delete);
        try (intros Hp; by apply Forall_delete, Hprof).
    + destruct (pair_finish respond first tA tB (net w)) as [r n']. simplify_eq.
      destruct Hinv as [Hm Hrec ? ? Hon Hui Hgen Hgeneral Hprof ? ? ?].
      open_world w st ses. simplify_eq.
      assert (Hrole : ro = GENERAL_USER).
      { destruct (decide (ro = GENERAL_USER)) as [|Hne]; [done|].
        by pose proof (Forall_lookup_1 _ _ _ _ (Hprof Hne) Ha). }
      subst ro.
      destruct (Hgeneral eq_refl) as [-> [->|(tA' & tB' & -> & -> & -> & -> & ->)]];
        [done|].
      destruct i; [|done]. cbn [delete list_delete].
      destruct r as [err|p]; unfold handleGeneralUserSubmit_resume;
        split; unfold metrics_ok in *; proj_simpl; try done.
      all: try (intros _; split; [done|by left]).
    + destruct (pair_finish respond first tA tB (net w)) as [r n']. simplify_eq.
      destruct Hinv as [Hm Hrec ? ? Hon Hui Hgen Hgeneral Hprof ? ? ?].
      open_world w st ses. simplify_eq.
      assert (Hrole : ro ≠ GENERAL_USER).
      { intros ->. destruct (Hgeneral eq_refl) as [_ [->|(tA' & tB' & -> & _)]];
          [done|by destruct i]. }
      assert (Hphase : ph ≠ GENERATION_EVAL).
      { intros Hp. destruct (Hgen Hp) as (_ & _ & _ & _ & Hsu).
        by pose proof (Forall_lookup_1 _ _ _ _ Hsu Ha). }
      destruct r as [err|p]; unfold handleStartProfessionalABTest_resume;
        split; unfold metrics_ok in *; proj_simpl; try done;
        try (intros ->; by destruct (Hon eq_refl) as [-> _]);
        try (intros ->; by destruct (Hui eq_refl) as (? & -> & _));
        try (intros Hp; by apply Forall_delete, Hprof).
Qed.

Lemma Inv_reachable w : reachable w → Inv w.
Proof.
  intros [es Hrun]. revert Hrun. generalize Inv_initial.
  generalize initial_world as w0. induction es as [|e es IH]; intros w0 H0 Hrun.
  - cbn in Hrun. by simplify_eq.
  - cbn [run] in Hrun. destruct (step e w0) as [w1|] eqn:Hs; [|done].
    eapply IH; [|done]. by eapply Inv_step.
Qed.

Lemma reachable_step e w w' : reachable w → step e w = Some w' → reachable w'.
Proof.
  intros [es Hrun] Hs. exists (es ++ [e]).
  revert Hrun. generalize initial_world as w0.
  induction es as [|e0 es IH]; intros w0 Hrun; cbn [run app] in *.
  - simplify_eq. by rewrite Hs.
  - destruct (step e0 w0); [by apply IH|done].
Qed.

Lemma singleEvals_view_slide w idx val :
  Inv w →
  single_view (fst (slider_onChange idx val (ui w) (heap w)))
    <$> UserSession.singleEvals (session (ui w))
  = singleEvals_view w.
Proof.
  intros Hinv. unfold singleEvals_view, slider_onChange.
  destruct (metrics (ui w) !! idx) as [l|] eqn:Hl; cbn [fst]; [|done].
  apply Forall_fmap_ext_1. eapply Forall_impl; [apply (inv_records w Hinv)|].
  intros r Hr. unfold single_view. do 3 f_equal.
  apply metric_values_alter. intros Hin.
  rewrite Forall_forall in Hr. destruct (Hr l Hin) as [_ Hnot].
  apply Hnot. by eapply list_elem_of_lookup_2.
Qed.

Lemma singleEvals_view_app w (extra : Heap) :
  Inv w →
  single_view (heap w ++ extra) <$> UserSession.singleEvals (session (ui w))
  = singleEvals_view w.
Proof.
  intros Hinv. unfold singleEvals_view.
  apply Forall_fmap_ext_1. eapply Forall_impl; [apply (inv_records w Hinv)|].
  intros r Hr. unfold single_view. do 3 f_equal.
  apply metric_values_app. eapply Forall_impl; [exact Hr|]. by intros l [? _].
Qed.

(** One step of a session: what it does to the two histories and to the
    phase. *)
Lemma step_history e w w' :
  Inv w → step e w = Some w' →
  (∃ added, singleEvals_view w' = singleEvals_view w ++ added
            ∧ length added = if is_single_submission e then 1%nat else 0%nat)
  ∧ (∃ added, abTests_of w' = abTests_of w ++ added
              ∧ length added = if is_pairwise_submission e then 1%nat else 0%nat)
  ∧ (phase (ui w') = phase (ui w)
     ∨ (phase_rank (phase (ui w)) < phase_rank (phase (ui w')))%nat
     ∨ (phase (ui w) = AB_TEST ∧ phase (ui w') = USER_INPUT
        ∧ singleEvals_view w' = [] ∧ abTests_of w' = [])).
Proof.
  intros Hinv Hstep. unfold step in Hstep.
  destruct (offered e (ui w)) eqn:Hoff; [|done].
  assert (Hsame : ∀ st rd n su,
            UserSession.singleEvals (session st)
            = UserSession.singleEvals (session (ui w)) →
            UserSession.abTests (session st)
            = UserSession.abTests (session (ui w)) →
            let w1 := {| ui := st; heap := heap w; net := n;
                         suspended := su; readers := rd |} in
            (∃ added, singleEvals_view w1 = singleEvals_view w ++ added
                      ∧ length added = 0%nat)
            ∧ (∃ added, abTests_of w1 = abTests_of w ++ added
                        ∧ length added = 0%nat)).
  { intros st rd n su Hs Ha. unfold singleEvals_view, abTests_of; proj_simpl.
    rewrite Hs, Ha. split; exists []; by rewrite app_nil_r. }
  destruct e; cbn [offered fire is_single_submission is_pairwise_submission]
    in Hoff, Hstep |- *; bool_hyps.
  - (* Click_role *)
    simplify_eq. rewrite (and_assoc _ _ _). split.
    { apply Hsame; destruct w as [st ? ? ? ?];
        destruct st as [? [] ? ? ? ? ? ? ? ?]; by destruct role. }
    right; left. unfold handleStart.
    destruct w as [st ? ? ? ?]; destruct st; proj_simpl.
    simplify_eq. destruct role; cbv; lia.
  - (* Pick_file *)
    simplify_eq. rewrite (and_assoc _ _ _). split; [by apply Hsame|by left].
  - (* Reader_loadend *)
    destruct (readers w) eqn:Hrd; simplify_eq. rewrite (and_assoc _ _ _).
    split; [|left]; [apply Hsame|]; destruct w as [st ? ? ? ?]; by destruct st.
  - (* Type_prompt *)
    simplify_eq. rewrite (and_assoc _ _ _).
    split; [|left]; [apply Hsame|]; destruct w as [st ? ? ? ?]; by destruct st.
  - (* Type_feedback *)
    simplify_eq. rewrite (and_assoc _ _ _).
    split; [|left]; [apply Hsame|]; destruct w as [st ? ? ? ?]; by destruct st.
  - (* Slide *)
    pose proof (singleEvals_view_slide w idx val Hinv) as Hv.
    unfold slider_onChange in *.
    destruct (metrics (ui w) !! idx) as [l|]; cbn [fst] in Hv; simplify_eq;
      (split; [|split]); try (exists []; rewrite app_nil_r);
      try (left); unfold singleEvals_view, abTests_of in *; proj_simpl;
      destruct w as [st ? ? ? ?]; destruct st; proj_simpl; done.
  - (* Click_generate *)
    unfold handleGenerateSingle_begin in Hstep.
    destruct (negb (truthy (trim (prompt (ui w))))).
    { simplify_eq. repeat split; try (exists []; by rewrite app_nil_r). by left. }
    destruct (gti_start (prompt (ui w)) None (net w)) as [t n']. simplify_eq.
    rewrite (and_assoc _ _ _).
    split; [|left]; [apply Hsame|]; destruct w as [st ? ? ? ?]; by destruct st.
  - (* Click_submit_eval *)
    unfold shows_rating in *.
    pose proof (metrics_ok_initial_objects w (inv_metrics w Hinv)) as Hfresh.
    pose proof (singleEvals_view_app w
                  (EvaluationMetric.with_score 3 <$> initial_heap) Hinv) as Hv.
    destruct (inv_generation w Hinv ltac:(done)) as (_ & _ & Hs & Hab & _).
    unfold handleSubmitSingleEval in Hstep. rewrite Hfresh in Hstep.
    destruct (generatedImage (ui w)) as [img|]; [|done].
    cbn [truthy_opt] in *.
    match goal with H : truthy img = true |- _ => rewrite H in Hstep end.
    simplify_eq. unfold singleEvals_view, abTests_of in *.
    destruct w as [st ? ? ? ?]; destruct st; proj_simpl. simplify_eq.
    rewrite fmap_app, Hv. split; [eexists; split; [reflexivity|done]|].
    split; [exists []; by rewrite app_nil_r|].
    right; left. cbn; lia.
  - (* Click_general_submit *)
    unfold handleGeneralUserSubmit_begin in Hstep.
    destruct (_ || _).
    { simplify_eq. repeat split; try (exists []; by rewrite app_nil_r). by left. }
    destruct (gti_start _ _ (net w)) as [tA n1].
    destruct (gti_start _ _ n1) as [tB n2]. simplify_eq.
    rewrite (and_assoc _ _ _).
    split; [|right; left]; [apply Hsame|];
      destruct w as [st ? ? ? ?]; destruct st; proj_simpl; try done.
    simplify_eq. cbn; lia.
  - (* Click_start_ab *)
    unfold handleStartProfessionalABTest_begin in Hstep.
    destruct (gti_start _ _ (net w)) as [tA n1].
    destruct (gti_start _ _ n1) as [tB n2]. simplify_eq.
    rewrite (and_assoc _ _ _).
    split; [|left]; [apply Hsame|]; destruct w as [st ? ? ? ?]; by destruct st.
  - (* Choose *)
    simplify_eq. unfold shows_comparison, handleABSelection in *. bool_hyps.
    unfold singleEvals_view, abTests_of.
    open_world w st ses. simplify_eq.
    destruct co as [images|];
      [|by match goal with H : is_Some None |- _ => destruct H end].
    proj_simpl. split; [exists []; by rewrite app_nil_r|].
    split; [eexists; split; [reflexivity|done]|].
    right; left. cbn; lia.
  - (* Settle *)
    destruct (suspended w !! i) as [a|] eqn:Ha; [|done].
    destruct a as [t|tA tB|tA tB].
    + destruct (gti_finish respond t (net w)) as [r n']. simplify_eq.
      rewrite (and_assoc _ _ _).
      split; [|left]; [apply Hsame|]; destruct w as [st ? ? ? ?];
        destruct st; by destruct r.
    + destruct (pair_finish respond first tA tB (net w)) as [r n']. simplify_eq.
      rewrite (and_assoc _ _ _).
      split; [apply Hsame; destruct w as [st ? ? ? ?]; destruct st; by destruct r|].
      destruct r as [err|p]; [|left; destruct w as [st ? ? ? ?]; by destruct st].
      right; right.
      destruct Hinv as [_ _ _ _ _ _ _ Hgeneral Hprof _ _ _].
      open_world w st ses.
      destruct (decide (ro = GENERAL_USER)) as [->|Hne];
        [|by pose proof (Forall_lookup_1 _ _ _ _ (Hprof Hne) Ha)].
      destruct (Hgeneral eq_refl)
        as [-> [->|(tA' & tB' & -> & -> & -> & -> & ->)]]; done.
    + destruct (pair_finish respond first tA tB (net w)) as [r n']. simplify_eq.
      rewrite (and_assoc _ _ _).
      split; [|left]; [apply Hsame|]; destruct w as [st ? ? ? ?];
        destruct st; by destruct r.
Qed.

(** Any number of steps: what the histories held stays in front. *)
Lemma run_history es w w' :
  reachable w → run es w = Some w' →
  singleEvals_view w `prefix_of` singleEvals_view w'
  ∧ abTests_of w `prefix_of` abTests_of w'.
Proof.
  revert w. induction es as [|e es IH]; intros w Hreach Hrun; cbn [run] in Hrun.
  - by simplify_eq.
  - destruct (step e w) as [w1|] eqn:Hs; [|done].
    pose proof (Inv_reachable w Hreach) as Hinv.
    destruct (step_history e w w1 Hinv Hs) as ((a1 & H1 & _) & (a2 & H2 & _) & _).
    destruct (IH w1 (reachable_step e w w1 Hreach Hs) Hrun) as [P1 P2].
    split; (etrans; [|eassumption]); [rewrite H1|rewrite H2]; by apply prefix_app_r.
Qed.

(** C9. In every state of a session, a step appends one record to the
    history of single evaluations exactly when it is the submission of a
    single evaluation, and one to the history of pairwise tests exactly when
    it is a pairwise submission; what the histories held stays in front,
    read through the heap, after any number of steps; the phase stays or
    moves forward, or falls back from AB_TEST to USER_INPUT while both
    histories are empty; and no history ever holds more than the one record
    of its phase. *)
Theorem session_history_append_only w :
  reachable w →
  (length (singleEvals_view w) ≤ 1)%nat ∧ (length (abTests_of w) ≤ 1)%nat
  ∧ (singleEvals_view w ≠ [] → phase (ui w) = AB_TEST ∨ phase (ui w) = COMPLETED)
  ∧ (abTests_of w ≠ [] → phase (ui w) = COMPLETED)
  ∧ (∀ e w', step e w = Some w' →
       (∃ added, singleEvals_view w' = singleEvals_view w ++ added
                 ∧ length added = if is_single_submission e then 1%nat else 0%nat)
       ∧ (∃ added, abTests_of w' = abTests_of w ++ added
                   ∧ length added
                     = if is_pairwise_submission e then 1%nat else 0%nat)
       ∧ (phase (ui w') = phase (ui w)
          ∨ (phase_rank (phase (ui w)) < phase_rank (phase (ui w')))%nat
          ∨ (phase (ui w) = AB_TEST ∧ phase (ui w') = USER_INPUT
             ∧ singleEvals_view w' = [] ∧ abTests_of w' = [])))
  ∧ (∀ es w', run es w = Some w' →
       singleEvals_view w `prefix_of` singleEvals_view w'
       ∧ abTests_of w `prefix_of` abTests_of w').
Proof.
  intros Hreach. pose proof (Inv_reachable w Hreach) as Hinv.
  split; [unfold singleEvals_view; rewrite length_fmap; apply Hinv|].
  split; [apply Hinv|].
  split.
  { intros Hne. apply (inv_single w Hinv). intros Hnil. apply Hne.
    unfold singleEvals_view. by rewrite Hnil. }
  split; [apply Hinv|].
  split; [intros e w'; by apply step_history|].
  intros es w' Hrun. by apply (run_history es w w').
Qed.

Lemma reachable_after (es : list Event) :
  is_Some (run es initial_world) → reachable (after es).
Proof. intros [w Hw]. exists es. unfold after. by rewrite Hw. Qed.

Lemma session_history_append_only_witness :
  (length (singleEvals_view (after trace_professional_pair)) ≤ 1)%nat
  ∧ ∃ w' added,
      step (Choose Selection.A 1700000000001) (after trace_professional_pair)
      = Some w'
      ∧ abTests_of w' = abTests_of (after trace_professional_pair) ++ added
      ∧ length added = 1%nat.
Proof.
  assert (Hreach : reachable (after trace_professional_pair)).
  { apply reachable_after. vm_compute. eauto. }
  destruct (session_history_append_only _ Hreach) as (H1 & _ & _ & _ & Hstep & _).
  split; [exact H1|].
  destruct (step (Choose Selection.A 1700000000001)
              (after trace_professional_pair)) as [w'|] eqn:Hs;
    [|by vm_compute in Hs].
  destruct (Hstep _ _ Hs) as (_ & (added & Hadd & Hlen) & _).
  exists w', added. split; [reflexivity|]. split; [exact Hadd|exact Hlen].
Defined.

(** C2. In a state of a session with a generated image, submitting the
    single evaluation appends one record.  Its metrics, read once the
    handler is done, are the four metrics that were on display at the
    submission, and neither the reset, nor a later move of a slider, nor
    any later step of the session changes what the record reads; the
    metrics of the state are four new objects with the default score 3; the
    update that appends the record is queued before the update of the phase
    to AB_TEST. *)
Theorem handleSubmitSingleEval_snapshot now w :
  reachable w →
  truthy_opt (generatedImage (ui w)) = true →
  ∃ w' r,
    fire (Click_submit_eval now) w = Some w'
    ∧ snd (handleSubmitSingleEval now (ui w) (heap w))
      = [ setSession (UserSession.add_singleEval r); setGeneratedImage None;
          setPrompt []; setMetrics (metrics (ui w')); setTextFeedback [];
          setPhase AB_TEST ]
    ∧ phase (commit [setSession (UserSession.add_singleEval r)] (ui w))
      = phase (ui w)
    ∧ UserSession.singleEvals (session (ui w'))
      = UserSession.singleEvals (session (ui w)) ++ [r]
    ∧ UserSession.abTests (session (ui w'))
      = UserSession.abTests (session (ui w))
    ∧ length (SingleEvalResult.metrics r) = 4%nat
    ∧ metric_values (heap w') (SingleEvalResult.metrics r)
      = metric_values (heap w) (metrics (ui w))
    ∧ (∀ idx val,
         metric_values (fst (slider_onChange idx val (ui w') (heap w')))
           (SingleEvalResult.metrics r)
         = metric_values (heap w) (metrics (ui w)))
    ∧ generatedImage (ui w) = Some (SingleEvalResult.image r)
    ∧ SingleEvalResult.prompt r = prompt (ui w)
    ∧ SingleEvalResult.feedback r = textFeedback (ui w)
    ∧ SingleEvalResult.timestamp r = now
    ∧ metric_values (heap w') (metrics (ui w')) = default_metrics
    ∧ phase (ui w') = AB_TEST
    ∧ (phase (ui w) = GENERATION_EVAL →
       step (Click_submit_eval now) w = Some w'
       ∧ ∀ es w'', run es w' = Some w'' →
           singleEvals_view w' `prefix_of` singleEvals_view w'').
Proof.
  intros Hreach Hgen.
  destruct (handleSubmitSingleEval_effect now w
              (inv_metrics w (Inv_reachable w Hreach)) Hgen)
    as (w' & r & Hfire & Hrest).
  exists w', r. split; [exact Hfire|].
  repeat (split; [apply Hrest|]).
  intros Hph.
  assert (Hstep : step (Click_submit_eval now) w = Some w').
  { unfold step. cbn [offered]. unfold shows_rating.
    by rewrite Hph, Hgen, bool_decide_eq_true_2. }
  split; [exact Hstep|].
  intros es w'' Hrun.
  by apply (run_history es w' w'' (reachable_step _ w w' Hreach Hstep)).
Qed.

Lemma handleSubmitSingleEval_snapshot_witness :
  ∃ w' r,
    step (Click_submit_eval 1700000000000) (after trace_rated) = Some w'
    ∧ UserSession.singleEvals (session (ui w')) = [r]
    ∧ metric_values (heap w') (SingleEvalResult.metrics r)
      = metric_values (heap (after trace_rated)) (metrics (ui (after trace_rated)))
    ∧ phase (ui w') = AB_TEST.
Proof.
  assert (Hreach : reachable (after trace_rated)).
  { apply reachable_after. vm_compute. eauto. }
  assert (Hgen : truthy_opt (generatedImage (ui (after trace_rated))) = true)
    by (vm_compute; reflexivity).
  assert (Hph : phase (ui (after trace_rated)) = GENERATION_EVAL)
    by (vm_compute; reflexivity).
  destruct (handleSubmitSingleEval_snapshot 1700000000000 (after trace_rated)
              Hreach Hgen)
    as (w' & r & _ & _ & _ & Hs & _ & _ & Hm & _ & _ & _ & _ & _ & _ & Hp & Hlater).
  destruct (Hlater Hph) as [Hstep _].
  exists w', r. split; [exact Hstep|]. split; [exact Hs|]. split; [exact Hm|exact Hp].
Defined.

Lemma truthy_true (s : jsstring) : truthy s = true ↔ s ≠ [].
Proof. by destruct s. Qed.

(** C6. In AB_TEST with a comparison pair, the comparison is on display and
    a click on image A or B is accepted whatever the feedback text is: it
    records the choice with that text as its reasoning.  The Equal button
    is disabled, and the choice refused, exactly when the text trims to the
    empty string; otherwise Equal is recorded like the other two. *)
Theorem renderABTest_choices w (images : Pair.t) now :
  reachable w → phase (ui w) = AB_TEST → comparisonImages (ui w) = Some images →
  shows_comparison (ui w) = true
  ∧ (∀ selection, selection ∈ clickable_images →
       ∃ w' r, step (Choose selection now) w = Some w'
         ∧ abTests_of w' = abTests_of w ++ [r]
         ∧ ABTestResult.selectedImage r = selection
         ∧ ABTestResult.reasoning r = textFeedback (ui w))
  ∧ (trim (textFeedback (ui w)) = [] →
       equal_disabled (ui w) = true
       ∧ step (Choose Selection.Equal now) w = None)
  ∧ (trim (textFeedback (ui w)) ≠ [] →
       equal_disabled (ui w) = false
       ∧ ∃ w' r, step (Choose Selection.Equal now) w = Some w'
           ∧ abTests_of w' = abTests_of w ++ [r]
           ∧ ABTestResult.selectedImage r = Selection.Equal
           ∧ ABTestResult.reasoning r = textFeedback (ui w)).
Proof.
  intros Hreach Hph Himg.
  pose proof (inv_pair w (Inv_reachable w Hreach)) as Hload.
  rewrite Himg in Hload. specialize (Hload ltac:(done)).
  assert (Hshow : shows_comparison (ui w) = true).
  { unfold shows_comparison. rewrite Himg, Hload. done. }
  assert (Hfire : ∀ selection, ∃ r,
            fire (Choose selection now) w
            = Some (with_ui (commit (handleABSelection selection now (ui w)) (ui w)) w)
            ∧ abTests_of (with_ui (commit (handleABSelection selection now (ui w))
                                     (ui w)) w)
              = abTests_of w ++ [r]
            ∧ ABTestResult.selectedImage r = selection
            ∧ ABTestResult.reasoning r = textFeedback (ui w)).
  { intros selection.
    destruct (handleABSelection_queue selection now (ui w) images Himg)
      as (r & Hq & Hsel & Hreason & _ & _ & _ & _ & _ & Hab & _).
    exists r. repeat split; try done. }
  split; [done|]. split; [|split].
  - intros selection Hsel. destruct (Hfire selection) as (r & Hf & Hrest).
    eexists _, r. split; [|exact Hrest].
    unfold step. cbn [offered]. rewrite Hph, Hshow, bool_decide_eq_true_2 by done.
    rewrite <- Hf. by destruct selection; rewrite ?bool_decide_eq_true_2 by done;
      [| |by apply elem_of_cons in Hsel as [|[|?%elem_of_nil]%elem_of_cons]].
  - intros Hblank. unfold equal_disabled, step. cbn [offered].
    unfold equal_disabled, Button_fires. rewrite Hblank. cbn.
    by rewrite andb_false_r.
  - intros Htext. apply truthy_true in Htext.
    unfold equal_disabled. rewrite Htext. split; [done|].
    destruct (Hfire Selection.Equal) as (r & Hf & Hrest).
    eexists _, r. split; [|exact Hrest].
    unfold step. cbn [offered]. unfold equal_disabled, Button_fires.
    by rewrite Hph, Hshow, Htext, bool_decide_eq_true_2.
Qed.
Lemma renderABTest_choices_witness :
  (equal_disabled (ui (after trace_professional_pair)) = true
   ∧ step (Choose Selection.Equal 5) (after trace_professional_pair) = None
   ∧ ∃ w' r, step (Choose Selection.A 5) (after trace_professional_pair) = Some w'
       ∧ abTests_of w' = abTests_of (after trace_professional_pair) ++ [r]
       ∧ ABTestResult.reasoning r = [])
  ∧ (equal_disabled (ui (after trace_professional_reasoned)) = false
     ∧ ∃ w' r, step (Choose Selection.Equal 5) (after trace_professional_reasoned)
               = Some w'
         ∧ ABTestResult.selectedImage r = Selection.Equal
         ∧ ABTestResult.reasoning r = lit "B keeps the spokes").
Proof.
  assert (Hr1 : reachable (after trace_professional_pair)).
  { apply reachable_after. vm_compute. eauto. }
  assert (Hr2 : reachable (after trace_professional_reasoned)).
  { apply reachable_after. vm_compute. eauto. }
  assert (Hp1 : phase (ui (after trace_professional_pair)) = AB_TEST)
    by (vm_compute; reflexivity).
  assert (Hp2 : phase (ui (after trace_professional_reasoned)) = AB_TEST)
    by (vm_compute; reflexivity).
  assert (Hc1 : comparisonImages (ui (after trace_professional_pair))
                = Some {| Pair.A := data_url sample_image;
                          Pair.B := data_url sample_image |})
    by (vm_compute; reflexivity).
  assert (Hc2 : comparisonImages (ui (after trace_professional_reasoned))
                = Some {| Pair.A := data_url sample_image;
                          Pair.B := data_url sample_image |})
    by (vm_compute; reflexivity).
  destruct (renderABTest_choices _ _ 5 Hr1 Hp1 Hc1) as (_ & HAB & Hblank & _).
  destruct (renderABTest_choices _ _ 5 Hr2 Hp2 Hc2) as (_ & _ & _ & Htext).
  split.
  - destruct (Hblank ltac:(vm_compute; reflexivity)) as [Hd Hn].
    split; [exact Hd|]. split; [exact Hn|].
    destruct (HAB Selection.A ltac:(repeat constructor)) as (w' & r & Hs & Ha & _ & Hre).
    exists w', r. split; [exact Hs|]. split; [exact Ha|].
    rewrite Hre. vm_compute. reflexivity.
  - destruct (Htext ltac:(by vm_compute)) as (Hd & w' & r & Hs & _ & Hsel & Hre).
    split; [exact Hd|]. exists w', r. split; [exact Hs|]. split; [exact Hsel|].
    rewrite Hre. vm_compute. reflexivity.
Defined.

Lemma random_index_in_range (random : Q) :
  Qle_bool 0 random = true → Qle_bool 1 random = false →
  is_Some (SUGGESTED_PROMPTS !! random_index random).
Proof.
  intros H0 H1. apply Qle_bool_iff in H0.
  assert (Hlt : (random < 1)%Q).
  { apply Qnot_le_lt. intros Hle. apply Qle_bool_iff in Hle. congruence. }
  apply lookup_lt_is_Some. unfold random_index.
  change (length SUGGESTED_PROMPTS) with 4%nat.
  change (inject_Z (Z.of_nat 4)) with (4 # 1)%Q.
  assert (Hf : (Qfloor (random * (4 # 1)) < 4)%Z).
  { rewrite Zlt_Qlt. eapply Qle_lt_trans; [apply Qfloor_le|].
    destruct random as [a b]. unfold Qlt in *. cbn in *. lia. }
  assert (Hg : (0 ≤ Qfloor (random * (4 # 1)))%Z).
  { change 0%Z with (Qfloor 0). apply Qfloor_resp_le.
    destruct random as [a b]. unfold Qle in *. cbn in *. lia. }
  lia.
Qed.

(** Paired generation in the two flows, on the state.  From USER_INPUT with
    an image and an intent, the submission moves to AB_TEST at once; when
    the paired generation settles, a pair leaves the phase at AB_TEST with
    both images in the state, and a failure brings the phase back to
    USER_INPUT with a message in [error].  In the professional flow,
    started from AB_TEST, a failure leaves the phase at AB_TEST with a
    message in [error]. *)
Lemma paired_generation_outcome w (respond : Oracle) (first : Side)
    (random : Q) :
  (phase (ui w) = USER_INPUT →
   truthy_opt (uploadedImage (ui w)) = true →
   trim (prompt (ui w)) ≠ [] →
   let out := generateComparisonPair respond first (prompt (ui w))
                (uploadedImage (ui w)) (net w) in
   ∃ w1 w2,
     step Click_general_submit w = Some w1
     ∧ phase (ui w1) = AB_TEST
     ∧ step (Settle (length (suspended w)) respond first) w1 = Some w2
     ∧ net w2 = snd out
     ∧ match fst out with
       | inr p =>
           phase (ui w2) = AB_TEST
           ∧ comparisonImages (ui w2)
             = Some {| Pair.A := imageA p; Pair.B := imageB p |}
       | inl _ =>
           phase (ui w2) = USER_INPUT
           ∧ error (ui w2) = Some (lit "图像处理失败，请重试。")
       end)
  ∧ (phase (ui w) = AB_TEST →
     shows_start_step (ui w) = true →
     Qle_bool 0 random = true → Qle_bool 1 random = false →
     let out := generateComparisonPair respond first (testPrompt_of random (ui w))
                  None (net w) in
     ∃ w1 w2,
       step (Click_start_ab random) w = Some w1
       ∧ phase (ui w1) = AB_TEST
       ∧ step (Settle (length (suspended w)) respond first) w1 = Some w2
       ∧ net w2 = snd out
       ∧ match fst out with
         | inr p =>
             phase (ui w2) = AB_TEST
             ∧ comparisonImages (ui w2)
               = Some {| Pair.A := imageA p; Pair.B := imageB p |}
         | inl _ =>
             phase (ui w2) = AB_TEST
             ∧ error (ui w2) = Some (lit "生成对比图像失败。")
         end).
Proof.
  split.
  - intros Hph Hup Hpr out. apply truthy_true in Hpr. subst out.
    rewrite generateComparisonPair_split.
    unfold step at 1. cbn [offered fire].
    unfold general_submit_disabled, Button_fires, handleGeneralUserSubmit_begin.
    rewrite Hph, Hup, Hpr. cbn [negb orb andb]. rewrite bool_decide_eq_true_2 by done.
    cbn [andb].
    destruct (gti_start _ _ (net w)) as [tA n1].
    destruct (gti_start _ _ n1) as [tB n2].
    destruct (pair_finish respond first tA tB n2) as [r n3] eqn:Hpf.
    eexists _, _. split; [reflexivity|].
    split; [destruct w as [st ? ? ? ?]; by destruct st|].
    unfold step. cbn [offered fire suspend suspended].
    rewrite lookup_app_r, Nat.sub_diag by done. cbn [lookup list_lookup].
    proj_simpl. rewrite Hpf.
    split; [reflexivity|]. split; [done|].
    destruct w as [st ? ? ? ?]; destruct st; by destruct r.
  - intros Hph Hshow H0 H1 out. subst out.
    rewrite generateComparisonPair_split.
    unfold step at 1. cbn [offered fire].
    unfold handleStartProfessionalABTest_begin.
    rewrite Hph, Hshow, H0, H1. rewrite bool_decide_eq_true_2 by done.
    cbn [andb negb].
    destruct (gti_start _ _ (net w)) as [tA n1].
    destruct (gti_start _ _ n1) as [tB n2].
    destruct (pair_finish respond first tA tB n2) as [r n3] eqn:Hpf.
    eexists _, _. split; [reflexivity|].
    split; [destruct w as [st ? ? ? ?]; destruct st; proj_simpl; by simplify_eq|].
    unfold step. cbn [offered fire suspend suspended].
    rewrite lookup_app_r, Nat.sub_diag by done. cbn [lookup list_lookup].
    proj_simpl. rewrite Hpf.
    split; [reflexivity|]. split; [done|].
    destruct w as [st ? ? ? ?]; destruct st; proj_simpl; simplify_eq; by destruct r.
Qed.

Lemma paired_generation_outcome_sample :
  (∃ w1 w2,
     step Click_general_submit (after trace_general_ready) = Some w1
     ∧ step (Settle 0 respond_image SideA) w1 = Some w2
     ∧ phase (ui w2) = AB_TEST
     ∧ comparisonImages (ui w2)
       = Some {| Pair.A := data_url sample_image;
                 Pair.B := data_url sample_image |})
  ∧ (∃ w1 w2,
       step Click_general_submit (after trace_general_ready) = Some w1
       ∧ step (Settle 0 respond_failure SideB) w1 = Some w2
       ∧ phase (ui w2) = USER_INPUT
       ∧ error (ui w2) = Some (lit "图像处理失败，请重试。"))
  ∧ (∃ w1 w2,
       step (Click_start_ab (1 # 2)) (after trace_professional_ab) = Some w1
       ∧ step (Settle 0 respond_failure SideA) w1 = Some w2
       ∧ phase (ui w2) = AB_TEST
       ∧ error (ui w2) = Some (lit "生成对比图像失败。")).
Proof.
  assert (Hph : phase (ui (after trace_general_ready)) = USER_INPUT)
    by (vm_compute; reflexivity).
  assert (Hup : truthy_opt (uploadedImage (ui (after trace_general_ready))) = true)
    by (vm_compute; reflexivity).
  assert (Hpr : trim (prompt (ui (after trace_general_ready))) ≠ [])
    by (vm_compute; discriminate).
  assert (Hab : phase (ui (after trace_professional_ab)) = AB_TEST)
    by (vm_compute; reflexivity).
  assert (Hshow : shows_start_step (ui (after trace_professional_ab)) = true)
    by (vm_compute; reflexivity).
  split; [|split].
  - destruct (paired_generation_outcome (after trace_general_ready)
                respond_image SideA 0) as [Hgen _].
    destruct (Hgen Hph Hup Hpr) as (w1 & w2 & Hs1 & _ & Hs2 & _ & Hm).
    exists w1, w2. split; [exact Hs1|]. split; [exact Hs2|].
    vm_compute in Hm. exact Hm.
  - destruct (paired_generation_outcome (after trace_general_ready)
                respond_failure SideB 0) as [Hgen _].
    destruct (Hgen Hph Hup Hpr) as (w1 & w2 & Hs1 & _ & Hs2 & _ & Hm).
    exists w1, w2. split; [exact Hs1|]. split; [exact Hs2|].
    vm_compute in Hm. exact Hm.
  - destruct (paired_generation_outcome (after trace_professional_ab)
                respond_failure SideA (1 # 2)) as [_ Hpro].
    destruct (Hpro Hab Hshow eq_refl eq_refl) as (w1 & w2 & Hs1 & _ & Hs2 & _ & Hm).
    exists w1, w2. split; [exact Hs1|]. split; [exact Hs2|].
    vm_compute in Hm. exact Hm.
Qed.

(** C7 (the input on which the code departs from it). When the service
    rejects the pair of the professional flow, the phase stays at AB_TEST
    and the message is stored in [error], but the render of AB_TEST shows no
    banner: the user is back at the start step without a message.  In the
    general user's flow the phase is back at USER_INPUT and the banner is
    shown. *)
Theorem professional_failure_shows_no_banner :
  (is_Some (run trace_professional_failure initial_world)
   ∧ phase (ui (after trace_professional_failure)) = AB_TEST
   ∧ error (ui (after trace_professional_failure))
     = Some (lit "生成对比图像失败。")
   ∧ error_banner (ui (after trace_professional_failure)) = None
   ∧ shows_start_step (ui (after trace_professional_failure)) = true)
  ∧ (is_Some (run trace_general_failure initial_world)
     ∧ phase (ui (after trace_general_failure)) = USER_INPUT
     ∧ error_banner (ui (after trace_general_failure))
       = Some (lit "图像处理失败，请重试。")).
Proof. vm_compute. repeat split; eauto. Qed.

End Reachable.

(** ** The scenarios of the specification, run *)

Section Scenarios.

(** A professional role and the prompt "a red bicycle": GENERATION_EVAL is
    entered, one image is generated, and submitting with the four metrics at
    3 appends one record with those scores and moves to AB_TEST. *)
Example scenario_professional_default_rating :
  phase (ui (after (take 1 trace_default_rating))) = GENERATION_EVAL
  ∧ generatedImage (ui (after (take 4 trace_default_rating)))
    = Some (data_url sample_image)
  ∧ is_Some (run trace_default_rating initial_world)
  ∧ phase (ui (after trace_default_rating)) = AB_TEST
  ∧ recorded_scores (after trace_default_rating)
    = [[Some 3%Q; Some 3%Q; Some 3%Q; Some 3%Q]].
Proof. vm_compute. repeat split; eauto. Qed.

(** The slider of the second metric moved to 4.5 before the submission: the
    object of [INITIAL_METRICS] itself was changed and the record holds it,
    while the state shows four new objects at 3. *)
Example scenario_slider_snapshot :
  recorded_scores (after trace_professional_ab)
  = [[Some 3%Q; Some (9 # 2)%Q; Some 3%Q; Some 3%Q]]
  ∧ SingleEvalResult.metrics
      <$> UserSession.singleEvals (session (ui (after trace_professional_ab)))
    = [INITIAL_METRICS]
  ∧ metrics (ui (after trace_professional_ab)) = [4; 5; 6; 7]%nat
  ∧ metric_values (heap (after trace_professional_ab))
      (metrics (ui (after trace_professional_ab)))
    = default_metrics.
Proof. vm_compute. repeat split; eauto. Qed.

(** A general user, an uploaded image and the intent "make it look like
    winter": the submission sends two requests whose prompts differ in their
    marker and which carry the same image, and ends in AB_TEST with both
    images. *)
Example scenario_general_winter :
  is_Some (run trace_general_pair initial_world)
  ∧ phase (ui (after trace_general_pair)) = AB_TEST
  ∧ comparisonImages (ui (after trace_general_pair))
    = Some {| Pair.A := data_url sample_image; Pair.B := data_url sample_image |}
  ∧ contents <$> requests (net (after trace_general_pair))
    = [ [ {| text := None; inlineData := Some sample_image |};
          {| text := Some (lit "make it look like winter --v 1");
             inlineData := None |} ];
        [ {| text := None; inlineData := Some sample_image |};
          {| text := Some (lit "make it look like winter --v 2");
             inlineData := None |} ] ].
Proof. vm_compute. repeat split; eauto. Qed.

End Scenarios.


(** * Further properties *)

(** ** The encoded-image convention, decoded *)

Section Decode.

Lemma match_lit_Some (l : jsstring) (pos pos' : nat) (s s' : jsstring) :
  match_lit l pos s = Some (pos', s') → s = l ++ s' ∧ pos' = (pos + length l)%nat.
Proof.
  revert pos s. induction l as [|c l IH]; intros pos s; cbn [match_lit app length].
  - intros [= <- <-]. split; [done|lia].
  - destruct s as [|d s]; [done|].
    destruct (c =? d) eqn:Hcd; [|done]. apply N.eqb_eq in Hcd as <-.
    intros H. apply IH in H as [-> ->]. split; [done|lia].
Qed.

Lemma plus_more_sound (cls : N → bool) (pos : nat) (s : jsstring)
    (k : nat → jsstring → option (list jsstring)) (r : list jsstring) :
  plus_more cls pos s k = Some r →
  ∃ m s', s = m ++ s' ∧ forallb cls m = true ∧ k (pos + length m)%nat s' = Some r.
Proof.
  revert pos. induction s as [|c s IH]; intros pos; cbn [plus_more].
  - intros Hk. exists [], []. by rewrite Nat.add_0_r.
  - destruct (cls c) eqn:Hc.
    + destruct (plus_more cls (S pos) s k) as [r'|] eqn:Hmore.
      * intros [= ->]. destruct (IH _ Hmore) as (m & s' & -> & Hm & Hk).
        exists (c :: m), s'. cbn [forallb length app]. rewrite Hc, Hm.
        split; [done|]. split; [done|]. by replace (pos + S (length m))%nat
          with (S pos + length m)%nat by lia.
      * intros Hk. exists [], (c :: s). by rewrite Nat.add_0_r.
    + intros Hk. exists [], (c :: s). by rewrite Nat.add_0_r.
Qed.

Lemma plus_sound (cls : N → bool) (pos : nat) (s : jsstring)
    (k : nat → jsstring → option (list jsstring)) (r : list jsstring) :
  plus cls pos s k = Some r →
  ∃ m s', s = m ++ s' ∧ m ≠ [] ∧ forallb cls m = true
          ∧ k (pos + length m)%nat s' = Some r.
Proof.
  unfold plus. destruct s as [|c s]; [done|].
  destruct (cls c) eqn:Hc; [|done]. intros Hmore.
  destruct (plus_more_sound _ _ _ _ _ Hmore) as (m & s' & -> & Hm & Hk).
  exists (c :: m), s'. cbn [forallb length app]. rewrite Hc, Hm.
  split; [done|]. split; [done|]. split; [done|].
  by replace (pos + S (length m))%nat with (S pos + length m)%nat by lia.
Qed.

(** A pattern that starts with [^] matches at the start of the input only. *)
Lemma exec_from_anchored (r : regex) (pos : nat) (s : jsstring) :
  exec_from (Cat Bol r) (S pos) s = None.
Proof.
  revert pos. induction s as [|c s IH]; intros pos; cbn [exec_from rmatch Nat.eqb];
    [done|apply IH].
Qed.

Lemma str_match_data_url_inv (s : jsstring) (l : list jsstring) :
  str_match data_url_re s = Some l →
  ∃ m p, s = lit "data:" ++ m ++ lit ";base64," ++ p
         ∧ m ≠ [] ∧ forallb mime_class m = true
         ∧ p ≠ [] ∧ forallb dot p = true
         ∧ l = [s; m; p].
Proof.
  unfold str_match, data_url_re. intros Hexec.
  assert (Hm : rmatch data_url_re 0 s []
                 (λ pos' _ caps, Some (take (pos' - 0) s :: caps)) = Some l).
  { unfold data_url_re. destruct s as [|c s]; cbn [exec_from] in Hexec.
    - by destruct (rmatch _ _ _ _ _).
    - destruct (rmatch _ _ _ _ _) as [l'|]; [done|].
      by rewrite exec_from_anchored in Hexec. }
  clear Hexec. unfold data_url_re in Hm. cbn [rmatch Nat.eqb] in Hm.
  destruct (match_lit (lit "data:") 0 s) as [[pos1 s1]|] eqn:H1; [|done].
  apply match_lit_Some in H1 as [Hs ->].
  apply plus_sound in Hm as (m & s2 & -> & Hm0 & Hmc & Hm).
  destruct (match_lit (lit ";base64,") _ s2) as [[pos3 s3]|] eqn:H3; [|done].
  apply match_lit_Some in H3 as [-> ->].
  apply plus_sound in Hm as (p & s4 & -> & Hp0 & Hpd & Hm).
  destruct s4 as [|c4 s4]; [|done]. rewrite !app_nil_r in Hm, Hs.
  exists m, p. do 5 (split; [done|]).
  apply (inj Some) in Hm. rewrite <- Hm. clear Hm.
  set (a := lit "data:") in *. set (c := lit ";base64,") in *.
  cbn [app]. f_equal; [|f_equal; [|f_equal]].
  - rewrite Nat.sub_0_r. apply firstn_all2. rewrite Hs, !length_app. lia.
  - replace (0 + length a + length m - (0 + length a))%nat
      with (length m) by lia.
    by rewrite take_app_length.
  - match goal with |- take ?n p = p => replace n with (length p) by lia end.
    apply firstn_all.
Qed.

Lemma parseBase64_inr (s : jsstring) (b : Blob) :
  parseBase64 s = inr b ↔ s = data_url b ∧ well_formed b = true.
Proof.
  unfold well_formed, data_url. split.
  - unfold parseBase64. destruct (str_match data_url_re s) as [l|] eqn:Hl; [|done].
    destruct (str_match_data_url_inv s l Hl) as (m & p & -> & Hm & Hmc & Hp & Hpd & ->).
    intros [= <-]. cbn [mimeType data]. split; [done|].
    rewrite Hmc, Hpd. by destruct m, p.
  - intros [-> Hwf]. apply andb_true_iff in Hwf as [Hwf Hpd].
    apply andb_true_iff in Hwf as [Hwf Hp]. apply andb_true_iff in Hwf as [Hm Hmc].
    unfold parseBase64. rewrite str_match_data_url; [by destruct b|..]; try done.
    + by destruct (mimeType b).
    + by destruct (data b).
Qed.

(** The only error of [parseBase64]. *)
Lemma parseBase64_inl (s : jsstring) :
  (∀ b, well_formed b = true → s ≠ data_url b) →
  parseBase64 s = inl (Error (lit "Invalid input string")).
Proof.
  intros Hno. destruct (parseBase64 s) as [e|b] eqn:Hp.
  - revert Hp. unfold parseBase64.
    by destruct (str_match data_url_re s) as [[|? [|? [|? [|? ?]]]]|]; intros [= <-].
  - apply parseBase64_inr in Hp as [-> Hwf]. by destruct (Hno b Hwf).
Qed.

(** X1. [parseBase64] accepts exactly the strings of the convention: it
    returns a media type and a payload for a string if and only if the
    string is their encoding and they are well formed; on every other
    string, and on no string of the convention, it throws the error
    "Invalid input string"; it has no other outcome. *)
Theorem parseBase64_exact (s : jsstring) :
  (∀ b, parseBase64 s = inr b ↔ s = data_url b ∧ well_formed b = true)
  ∧ (parseBase64 s = inl (Error (lit "Invalid input string"))
     ↔ ∀ b, well_formed b = true → s ≠ data_url b)
  ∧ ((∃ b, parseBase64 s = inr b)
     ∨ parseBase64 s = inl (Error (lit "Invalid input string"))).
Proof.
  split; [intros b; apply parseBase64_inr|]. split; [split|].
  - intros He b Hwf ->.
    rewrite (proj2 (parseBase64_inr (data_url b) b) (conj eq_refl Hwf)) in He.
    discriminate He.
  - apply parseBase64_inl.
  - destruct (parseBase64 s) as [e|b] eqn:Hp; [right|left; by exists b].
    rewrite <- Hp. apply parseBase64_inl. intros b Hwf ->.
    rewrite (proj2 (parseBase64_inr (data_url b) b) (conj eq_refl Hwf)) in Hp.
    discriminate Hp.
Qed.

Lemma parseBase64_exact_witness :
  parseBase64 (data_url sample_image) = inr sample_image
  ∧ parseBase64 (lit "image.png") = inl (Error (lit "Invalid input string")).
Proof.
  split.
  - apply (proj1 (parseBase64_exact (data_url sample_image)) sample_image).
    split; [reflexivity|vm_compute; reflexivity].
  - apply (proj1 (proj2 (parseBase64_exact (lit "image.png")))).
    intros b _ H. apply (f_equal (take 5)) in H. unfold data_url in H.
    rewrite take_app_length' in H by (vm_compute; reflexivity).
    vm_compute in H. discriminate.
Defined.

End Decode.

(** ** The image-generation client, further *)

Section ClientMore.

Variable respond : Oracle.

Ltac unfold_m :=
  cbv [generateTestImage gti_start gti_finish gti_resume try_catch bind ret
       throw lift log_and_rethrow console_error generateContent
       start_task start_requests task_result].

Lemma gti_start_console (prompt : jsstring) (ref : option jsstring) (n : Net) :
  console (snd (gti_start prompt ref n))
  = console n ++ start_log (start_task prompt ref (length (requests n))).
Proof.
  unfold_m. destruct (build_parts prompt ref); cbn [snd console start_log error_entry];
    [done|by rewrite app_nil_r].
Qed.

Lemma gti_finish_console (t : Task) (n : Net) :
  console (snd (gti_finish respond t n)) = console n ++ finish_log respond t.
Proof.
  destruct t as [r|i req]; unfold finish_log, task_result; unfold_m;
    cbn [snd console error_entry].
  - by rewrite app_nil_r.
  - destruct (respond i req) as [e|resp]; cbn [snd console error_entry]; [done|].
    destruct (extract_image resp); cbn [snd console error_entry]; [done|].
    by rewrite app_nil_r.
Qed.

(** The console of one call: what its start and its end write. *)
Lemma generateTestImage_console (prompt : jsstring) (ref : option jsstring)
    (n : Net) :
  console (snd (generateTestImage respond prompt ref n))
  = console n ++ error_entry (fst (generateTestImage respond prompt ref n)).
Proof.
  pose proof (generateTestImage_logs respond prompt ref n) as H.
  destruct (generateTestImage respond prompt ref n) as [[e|img] n'];
    cbn [fst snd error_entry]; [done|by rewrite app_nil_r].
Qed.

Lemma truthy_data_url (b : Blob) : truthy (data_url b) = true.
Proof.
  unfold data_url. destruct (lit "data:") as [|c l] eqn:Hl; [by vm_compute in Hl|done].
Qed.

Lemma build_parts_bad_reference (prompt ref : jsstring) :
  ref ≠ [] → (∀ b, well_formed b = true → ref ≠ data_url b) →
  build_parts prompt (Some ref) = inl (Error (lit "Invalid input string")).
Proof.
  intros Hne Hno. unfold build_parts.
  change (default [] (Some ref)) with ref. cbn [truthy_opt].
  rewrite (parseBase64_inl _ Hno). by destruct ref.
Qed.

Lemma build_parts_data_url (prompt : jsstring) (b : Blob) :
  well_formed b = true →
  build_parts prompt (Some (data_url b))
  = inr [ {| text := None; inlineData := Some b |};
          {| text := Some prompt; inlineData := None |} ].
Proof.
  intros Hwf. unfold build_parts.
  change (default [] (Some (data_url b))) with (data_url b). cbn [truthy_opt].
  rewrite truthy_data_url.
  rewrite (proj2 (parseBase64_inr (data_url b) b) (conj eq_refl Hwf)).
  by destruct b.
Qed.

(** X2. A reference image that is not empty and is not a well-formed data
    URL makes [generateTestImage] fail with "Invalid input string" whatever
    the service would answer: nothing is sent, and the error is written once
    on the console. *)
Theorem generateTestImage_bad_reference (prompt ref : jsstring) (n : Net) :
  ref ≠ [] → (∀ b, well_formed b = true → ref ≠ data_url b) →
  generateTestImage respond prompt (Some ref) n
  = (inl (Error (lit "Invalid input string")),
     {| requests := requests n;
        console := console n
          ++ [ConsoleError (lit "Gemini Image Gen Error:")
                (Error (lit "Invalid input string"))] |}).
Proof.
  intros Hne Hno. unfold_m. by rewrite (build_parts_bad_reference _ _ Hne Hno).
Qed.


(** X3. What one call sends: the fixed model and the prompt as it is given,
    in a text part; a reference image that is a well-formed data URL goes
    before it, as one inline part with its media type and payload; no
    reference and the empty reference send the text part alone. *)
Theorem generateTestImage_request (prompt : jsstring) (n : Net) :
  (∀ b, well_formed b = true →
     requests (snd (generateTestImage respond prompt (Some (data_url b)) n))
     = requests n
       ++ [{| model := gemini_model;
              contents := [ {| text := None; inlineData := Some b |};
                            {| text := Some prompt; inlineData := None |} ] |}])
  ∧ (∀ ref, ref = None ∨ ref = Some [] →
       requests (snd (generateTestImage respond prompt ref n))
       = requests n
         ++ [{| model := gemini_model;
                contents := [ {| text := Some prompt; inlineData := None |} ] |}]).
Proof.
  split.
  - intros b Hwf. rewrite generateTestImage_requests. unfold start_requests.
    by rewrite (build_parts_data_url _ _ Hwf).
  - intros ref [-> | ->]; by rewrite generateTestImage_requests.
Qed.


Lemma first_inline_app (pre post : list Part) (part : Part) (b : Blob) :
  Forall (λ q, inlineData q = None) pre → inlineData part = Some b →
  first_inline (pre ++ part :: post) = Some b.
Proof.
  intros Hpre Hpart. induction Hpre as [|q pre Hq _ IH]; cbn [app first_inline].
  - by rewrite Hpart.
  - by rewrite Hq.
Qed.

(** X4. When the service answers, the image returned is the first inline
    part of the first candidate, encoded as a data URL: the parts before it
    that carry no inline data, the parts after it and the other candidates
    are not looked at; the request is recorded and the console is left as
    it was. *)
Theorem generateTestImage_first_inline (prompt : jsstring)
    (ref : option jsstring) (n : Net) (ps : list Part) (response : Response)
    (c : Candidate) (cs : list Candidate) (ct : Content)
    (pre post : list Part) (part : Part) (b : Blob) :
  build_parts prompt ref = inr ps →
  respond (length (requests n)) {| model := gemini_model; contents := ps |}
  = inr response →
  candidates response = Some (c :: cs) → content c = Some ct →
  parts ct = Some (pre ++ part :: post) →
  Forall (λ q, inlineData q = None) pre → inlineData part = Some b →
  generateTestImage respond prompt ref n
  = (inr (data_url b),
     {| requests := requests n ++ [{| model := gemini_model; contents := ps |}];
        console := console n |}).
Proof.
  intros Hps Hresp Hc Hct Hparts Hpre Hpart. unfold_m.
  rewrite Hps, Hresp. unfold extract_image. rewrite Hc. cbn [lookup list_lookup].
  by rewrite Hct, Hparts, (first_inline_app _ _ _ _ Hpre Hpart).
Qed.


(** X5. The accounts of one call, whatever its inputs: it writes on the
    console exactly when it fails, and then the error it throws; it sends at
    most one request and removes none; when it succeeds it has sent exactly
    one and returns a data URL. *)
Theorem generateTestImage_accounts (prompt : jsstring) (ref : option jsstring)
    (n : Net) :
  let out := generateTestImage respond prompt ref n in
  console (snd out) = console n ++ error_entry (fst out)
  ∧ (∃ sent, requests (snd out) = requests n ++ sent ∧ (length sent ≤ 1)%nat
       ∧ match fst out with
         | inr s => length sent = 1%nat ∧ ∃ b, s = data_url b
         | inl _ => True
         end).
Proof.
  intros out. subst out. split; [apply generateTestImage_console|].
  exists (start_requests prompt ref). split; [apply generateTestImage_requests|].
  pose proof (generateTestImage_fst respond prompt ref n) as Hfst.
  unfold start_requests, start_task, task_result in *.
  destruct (build_parts prompt ref) as [e|ps]; cbn [length].
  - split; [lia|]. by rewrite Hfst.
  - split; [lia|]. rewrite Hfst.
    destruct (respond _ _) as [e|resp]; [done|].
    destruct (extract_image resp) as [e|s] eqn:Hs; [done|].
    split; [done|]. by apply (extract_image_data_url resp).
Qed.

Lemma pair_finish_console (first : Side) (tA tB : Task) (n : Net) :
  console (snd (pair_finish respond first tA tB n))
  = console n
    ++ match settles_first first tA tB with
       | SideA => finish_log respond tA ++ finish_log respond tB
       | SideB => finish_log respond tB ++ finish_log respond tA
       end.
Proof.
  unfold pair_finish, bind, finish_all2.
  destruct (settles_first first tA tB).
  - pose proof (gti_finish_console tA n) as H1.
    destruct (gti_finish respond tA n) as [rA n1].
    pose proof (gti_finish_console tB n1) as H2.
    destruct (gti_finish respond tB n1) as [rB n2]. cbn [snd] in *.
    destruct (all_settled SideA rA rB); cbn [snd ret];
      by rewrite H2, H1, <- app_assoc.
  - pose proof (gti_finish_console tB n) as H1.
    destruct (gti_finish respond tB n) as [rB n1].
    pose proof (gti_finish_console tA n1) as H2.
    destruct (gti_finish respond tA n1) as [rA n2]. cbn [snd] in *.
    destruct (all_settled SideB rA rB); cbn [snd ret];
      by rewrite H2, H1, <- app_assoc.
Qed.

Lemma generateComparisonPair_console_eq (first : Side) (prompt : jsstring)
    (ref : option jsstring) (n : Net) :
  let tA := start_task (prompt ++ lit " --v 1") ref (length (requests n)) in
  let tB := start_task (prompt ++ lit " --v 2") ref
              (length (requests n ++ start_requests (prompt ++ lit " --v 1") ref)) in
  console (snd (generateComparisonPair respond first prompt ref n))
  = console n ++ start_log tA ++ start_log tB
    ++ match settles_first first tA tB with
       | SideA => finish_log respond tA ++ finish_log respond tB
       | SideB => finish_log respond tB ++ finish_log respond tA
       end.
Proof.
  intros tA tB. rewrite generateComparisonPair_split.
  pose proof (gti_start_fst (prompt ++ lit " --v 1") ref n) as HA.
  pose proof (gti_start_requests (prompt ++ lit " --v 1") ref n) as HAr.
  pose proof (gti_start_console (prompt ++ lit " --v 1") ref n) as HAc.
  destruct (gti_start (prompt ++ lit " --v 1") ref n) as [tA' n1].
  pose proof (gti_start_fst (prompt ++ lit " --v 2") ref n1) as HB.
  pose proof (gti_start_console (prompt ++ lit " --v 2") ref n1) as HBc.
  destruct (gti_start (prompt ++ lit " --v 2") ref n1) as [tB' n2].
  cbn [fst snd] in *. rewrite HAr in HB, HBc. subst tA' tB'.
  rewrite pair_finish_console, HBc, HAc. fold tA tB. by rewrite <- !app_assoc.
Qed.

(** X6. With a reference image that is not empty and is not a well-formed
    data URL, [generateComparisonPair] fails with "Invalid input string"
    whatever the service and the order of settlement: nothing is sent, and
    each of the two calls writes its error on the console. *)
Theorem generateComparisonPair_bad_reference (first : Side)
    (prompt ref : jsstring) (n : Net) :
  ref ≠ [] → (∀ b, well_formed b = true → ref ≠ data_url b) →
  generateComparisonPair respond first prompt (Some ref) n
  = (inl (Error (lit "Invalid input string")),
     {| requests := requests n;
        console := console n
          ++ [ConsoleError (lit "Gemini Image Gen Error:")
                (Error (lit "Invalid input string"));
              ConsoleError (lit "Gemini Image Gen Error:")
                (Error (lit "Invalid input string"))] |}).
Proof.
  intros Hne Hno.
  pose proof (generateComparisonPair_fst respond first prompt (Some ref) n) as Hf.
  pose proof (generateComparisonPair_requests respond first prompt (Some ref) n) as Hr.
  pose proof (generateComparisonPair_console_eq first prompt (Some ref) n) as Hc.
  cbv zeta in Hf, Hc. unfold start_task, start_requests in *.
  rewrite !(build_parts_bad_reference _ _ Hne Hno) in *.
  cbn [settles_first all_settled task_result start_log finish_log error_entry app]
    in *.
  rewrite !app_nil_r in *.
  destruct (generateComparisonPair respond first prompt (Some ref) n) as [r [rs cs]].
  cbn [fst snd requests console] in *. by subst.
Qed.

(** X7. The order in which the two requests settle matters to the result of
    the pair only when both calls fail: then the error is that of the call
    that settles first; in every other case both orders give the same
    result. *)
Theorem generateComparisonPair_order (prompt : jsstring)
    (ref : option jsstring) (n : Net) :
  let callA := generateTestImage respond (prompt ++ lit " --v 1") ref n in
  let callB := generateTestImage respond (prompt ++ lit " --v 2") ref (snd callA) in
  let outA := generateComparisonPair respond SideA prompt ref n in
  let outB := generateComparisonPair respond SideB prompt ref n in
  fst outA = fst outB
  ∨ ∃ eA eB, fst callA = inl eA ∧ fst callB = inl eB
             ∧ fst outA = inl eA ∧ fst outB = inl eB.
Proof.
  intros callA callB outA outB. subst callA callB outA outB.
  rewrite !generateTestImage_fst, generateTestImage_requests,
    !generateComparisonPair_fst.
  set (tA := start_task _ _ _). set (tB := start_task _ _ _).
  destruct (task_result respond tA) as [eA|a] eqn:HA,
    (task_result respond tB) as [eB|b] eqn:HB.
  2-4: left; by destruct tA, tB.
  destruct tA as [rA|iA qA], tB as [rB|iB qB]; cbn [settles_first all_settled];
    [by left..|].
  right. by exists eA, eB.
Qed.

(** X8. The console after a pair holds, after what it held, one entry for
    each of the two calls that failed, with the error of that call, in some
    order: the sibling of a failed call is still run to its end and
    logged. *)
Theorem generateComparisonPair_console (first : Side) (prompt : jsstring)
    (ref : option jsstring) (n : Net) :
  let callA := generateTestImage respond (prompt ++ lit " --v 1") ref n in
  let callB := generateTestImage respond (prompt ++ lit " --v 2") ref (snd callA) in
  let out := generateComparisonPair respond first prompt ref n in
  ∃ entries,
    console (snd out) = console n ++ entries
    ∧ entries ≡ₚ error_entry (fst callA) ++ error_entry (fst callB).
Proof.
  intros callA callB out. subst callA callB out.
  rewrite !generateTestImage_fst, generateTestImage_requests.
  pose proof (generateComparisonPair_console_eq first prompt ref n) as Hc.
  cbv zeta in Hc. revert Hc.
  set (tA := start_task _ _ _). set (tB := start_task _ _ _). intros Hc.
  eexists. split; [exact Hc|].
  destruct tA as [rA|iA qA] eqn:HtA, tB as [rB|iB qB] eqn:HtB;
    cbn [settles_first start_log finish_log task_result app];
    rewrite ?app_nil_r; try done.
  - apply Permutation_app_comm.
  - destruct first; [done|]. apply Permutation_app_comm.
Qed.

(** C1 (amended). Paired generation.  With no reference image, the empty
    one, or one that is a well-formed data URL, [generateComparisonPair]
    sends exactly two requests: the first holds the base prompt followed by
    [ --v 1], the second the base prompt followed by [ --v 2], two different
    prompts, and both hold the same decoded reference image before the
    prompt when there is one, and no image otherwise.  With a reference
    image that is not empty and is not a well-formed data URL it sends no
    request and fails with "Invalid input string".  In every case it sends
    what its two calls of [generateTestImage] send, and its result is the
    pair of their two images when both succeed and the error of a failed
    call otherwise, never one image alone. *)
Theorem generateComparisonPair_atomic (first : Side) (prompt : jsstring)
    (ref : option jsstring) (n : Net) :
  let pA := prompt ++ lit " --v 1" in
  let pB := prompt ++ lit " --v 2" in
  let callA := generateTestImage respond pA ref n in
  let callB := generateTestImage respond pB ref (snd callA) in
  let out := generateComparisonPair respond first prompt ref n in
  pA ≠ pB
  ∧ requests (snd out) = requests (snd callB)
  ∧ (∀ b, ref = Some (data_url b) → well_formed b = true →
       requests (snd out)
       = requests n
         ++ [ {| model := gemini_model;
                 contents := [ {| text := None; inlineData := Some b |};
                               {| text := Some pA; inlineData := None |} ] |};
              {| model := gemini_model;
                 contents := [ {| text := None; inlineData := Some b |};
                               {| text := Some pB; inlineData := None |} ] |} ])
  ∧ (ref = None ∨ ref = Some [] →
       requests (snd out)
       = requests n
         ++ [ {| model := gemini_model;
                 contents := [ {| text := Some pA; inlineData := None |} ] |};
              {| model := gemini_model;
                 contents := [ {| text := Some pB; inlineData := None |} ] |} ])
  ∧ (∀ r, ref = Some r → r ≠ [] →
       (∀ b, well_formed b = true → r ≠ data_url b) →
       requests (snd out) = requests n
       ∧ fst out = inl (Error (lit "Invalid input string")))
  ∧ match fst callA, fst callB with
    | inr a, inr b => fst out = inr {| imageA := a; imageB := b |}
    | inl eA, inr _ => fst out = inl eA
    | inr _, inl eB => fst out = inl eB
    | inl eA, inl eB => fst out = inl eA ∨ fst out = inl eB
    end.
Proof.
  intros pA pB callA callB out. split.
  { unfold pA, pB. intros H. apply app_inv_head in H. by vm_compute in H. }
  subst callB callA out. split.
  { by rewrite generateComparisonPair_requests, !generateTestImage_requests,
      <- app_assoc. }
  split.
  { intros b -> Hwf. rewrite generateComparisonPair_requests.
    unfold start_requests. by rewrite !(build_parts_data_url _ _ Hwf). }
  split.
  { intros Href. rewrite generateComparisonPair_requests.
    unfold start_requests, build_parts. by destruct Href as [->| ->]. }
  split.
  { intros r -> Hne Hno. split.
    - rewrite generateComparisonPair_requests. unfold start_requests.
      rewrite !(build_parts_bad_reference _ _ Hne Hno). by rewrite app_nil_r.
    - rewrite generateComparisonPair_fst. unfold start_task.
      by rewrite !(build_parts_bad_reference _ _ Hne Hno). }
  rewrite !generateTestImage_fst, generateTestImage_requests,
    generateComparisonPair_fst.
  fold pA pB.
  destruct (task_result respond (start_task pA ref _)) as [eA|a],
    (task_result respond (start_task pB ref _)) as [eB|b],
    (settles_first first _ _); cbn [all_settled to_pair]; auto.
Qed.

End ClientMore.

Section ClientWitness.

Lemma generateComparisonPair_atomic_witness :
  requests
    (snd (generateComparisonPair respond_image SideB
            (lit "make it look like winter") (Some (data_url sample_image))
            {| requests := []; console := [] |}))
  = [ {| model := gemini_model;
         contents := [ {| text := None; inlineData := Some sample_image |};
                       {| text := Some (lit "make it look like winter"
                                        ++ lit " --v 1");
                          inlineData := None |} ] |};
      {| model := gemini_model;
         contents := [ {| text := None; inlineData := Some sample_image |};
                       {| text := Some (lit "make it look like winter"
                                        ++ lit " --v 2");
                          inlineData := None |} ] |} ].
Proof.
  pose proof (generateComparisonPair_atomic respond_image SideB
                (lit "make it look like winter") (Some (data_url sample_image))
                {| requests := []; console := [] |}) as H.
  cbv zeta in H. destruct H as (_ & _ & H & _).
  apply (H sample_image); [reflexivity|vm_compute; reflexivity].
Defined.

(** C1 as it is stated fails on a reference image that does not follow the
    convention, here an image whose media type holds a digit and the image
    of an empty file: the service would answer every request with an image,
    and no request is sent, neither by the client nor by the App of a
    general user who has uploaded such a file. *)
Lemma generateComparisonPair_malformed_reference :
  (generateComparisonPair respond_image SideA (lit "make it look like winter")
     (Some (lit "data:image/jp2;base64,AAAAAA=="))
     {| requests := []; console := [] |}
   = (inl (Error (lit "Invalid input string")),
      {| requests := [];
         console := [ ConsoleError (lit "Gemini Image Gen Error:")
                        (Error (lit "Invalid input string"));
                      ConsoleError (lit "Gemini Image Gen Error:")
                        (Error (lit "Invalid input string")) ] |}))
  ∧ requests
      (snd (generateComparisonPair respond_image SideA
              (lit "make it look like winter")
              (Some (lit "data:image/png;base64,"))
              {| requests := []; console := [] |}))
    = []
  ∧ requests
      (net (after [ Click_role GENERAL_USER; Pick_file;
                    Reader_loadend (Some (lit "data:image/jp2;base64,AAAAAA=="));
                    Type_prompt (lit "make it look like winter");
                    Click_general_submit; Settle 0 respond_image SideA ]))
    = []
  ∧ phase
      (ui (after [ Click_role GENERAL_USER; Pick_file;
                   Reader_loadend (Some (lit "data:image/jp2;base64,AAAAAA=="));
                   Type_prompt (lit "make it look like winter");
                   Click_general_submit; Settle 0 respond_image SideA ]))
    = USER_INPUT.
Proof. vm_compute. repeat split. Qed.

Lemma generateTestImage_bad_reference_witness :
  generateTestImage respond_failure (lit "a red bicycle") (Some (lit "image.png"))
    {| requests := []; console := [] |}
  = (inl (Error (lit "Invalid input string")),
     {| requests := [];
        console := [ConsoleError (lit "Gemini Image Gen Error:")
                      (Error (lit "Invalid input string"))] |}).
Proof.
  apply (generateTestImage_bad_reference respond_failure (lit "a red bicycle") (lit "image.png")
           {| requests := []; console := [] |}).
  - vm_compute. discriminate.
  - intros b _ H. apply (f_equal (take 5)) in H. unfold data_url in H.
    rewrite take_app_length' in H by (vm_compute; reflexivity).
    vm_compute in H. discriminate.
Defined.

Lemma generateTestImage_request_witness :
  requests (snd (generateTestImage respond_image (lit "make it look like winter")
                   (Some (data_url sample_image))
                   {| requests := []; console := [] |}))
  = [{| model := gemini_model;
        contents := [ {| text := None; inlineData := Some sample_image |};
                      {| text := Some (lit "make it look like winter");
                         inlineData := None |} ] |}].
Proof.
  destruct (generateTestImage_request respond_image (lit "make it look like winter")
              {| requests := []; console := [] |}) as [H _].
  apply (H sample_image). vm_compute. reflexivity.
Defined.

Lemma generateTestImage_first_inline_witness :
  generateTestImage respond_image (lit "a red bicycle") None
    {| requests := []; console := [] |}
  = (inr (data_url sample_image),
     {| requests :=
          [{| model := gemini_model;
              contents := [{| text := Some (lit "a red bicycle");
                              inlineData := None |}] |}];
        console := [] |}).
Proof.
  eapply (generateTestImage_first_inline respond_image (lit "a red bicycle") None
            {| requests := []; console := [] |} _ _ _ [] _ [] []
            {| text := None; inlineData := Some sample_image |} sample_image);
    try reflexivity.
  constructor.
Defined.

Lemma generateComparisonPair_bad_reference_witness :
  generateComparisonPair respond_image SideB (lit "make it look like winter")
    (Some (lit "image.png")) {| requests := []; console := [] |}
  = (inl (Error (lit "Invalid input string")),
     {| requests := [];
        console := [ConsoleError (lit "Gemini Image Gen Error:")
                      (Error (lit "Invalid input string"));
                    ConsoleError (lit "Gemini Image Gen Error:")
                      (Error (lit "Invalid input string"))] |}).
Proof.
  apply (generateComparisonPair_bad_reference respond_image SideB
           (lit "make it look like winter") (lit "image.png")
           {| requests := []; console := [] |}).
  - vm_compute. discriminate.
  - intros b _ H. apply (f_equal (take 5)) in H. unfold data_url in H.
    rewrite take_app_length' in H by (vm_compute; reflexivity).
    vm_compute in H. discriminate.
Defined.

End ClientWitness.

(** ** [trim] and the guards on the prompt *)

Section Trim.

Lemma trimStart_nil (s : jsstring) :
  trimStart s = [] ↔ forallb is_trimmed s = true.
Proof.
  induction s as [|c s IH]; cbn [trimStart forallb]; [done|].
  destruct (is_trimmed c); [done|]. cbn. split; intros; done.
Qed.

Lemma trimStart_head (s t : jsstring) (c : N) :
  trimStart s = c :: t → is_trimmed c = false.
Proof.
  induction s as [|d s IH]; cbn [trimStart]; [done|].
  destruct (is_trimmed d) eqn:Hd; [done|]. by intros [= <- <-].
Qed.

Lemma forallb_rev (f : N → bool) (s : jsstring) :
  forallb f (rev s) = forallb f s.
Proof.
  induction s as [|c s IH]; cbn [rev forallb]; [done|].
  rewrite forallb_app, IH. cbn [forallb]. destruct (f c), (forallb f s); done.
Qed.

Lemma forallb_trimStart (s : jsstring) :
  forallb is_trimmed (trimStart s) = forallb is_trimmed s.
Proof.
  induction s as [|c s IH]; cbn [trimStart forallb]; [done|].
  destruct (is_trimmed c) eqn:Hc; [done|]. cbn [forallb]. by rewrite Hc.
Qed.

(** [!s.trim()] holds exactly of the strings made of white space and line
    terminators. *)
Lemma trim_nil (s : jsstring) : trim s = [] ↔ forallb is_trimmed s = true.
Proof.
  unfold trim, trimEnd. split.
  - intros H. apply (f_equal (@rev N)) in H. rewrite rev_involutive in H.
    apply trimStart_nil in H. by rewrite forallb_rev, forallb_trimStart in H.
  - intros H. apply trimStart_nil in H. by rewrite H.
Qed.

Lemma forallb_trim (s : jsstring) :
  forallb is_trimmed (trim s) = forallb is_trimmed s.
Proof.
  unfold trim, trimEnd. by rewrite forallb_rev, forallb_trimStart, forallb_rev,
    forallb_trimStart.
Qed.

Lemma truthy_trim (s : jsstring) :
  truthy (trim s) = negb (forallb is_trimmed s).
Proof.
  destruct (forallb is_trimmed s) eqn:Hb.
  - apply trim_nil in Hb. by rewrite Hb.
  - destruct (trim s) eqn:Ht; [|done]. apply trim_nil in Ht. congruence.
Qed.

Lemma not_blank_app (s t : jsstring) :
  forallb is_trimmed t = false → forallb is_trimmed (s ++ t) = false.
Proof. intros Ht. rewrite forallb_app, Ht. apply andb_false_r. Qed.

End Trim.

(** ** The states of a session, further *)

Section Session.

Implicit Types (w : World) (st : AppState) (e : Event).

Ltac bools :=
  repeat match goal with
    | H : _ && _ = true |- _ => apply andb_true_iff in H as [? ?]
    | H : _ || _ = false |- _ => apply orb_false_iff in H as [? ?]
    | H : negb _ = true |- _ => apply negb_true_iff in H
    | H : negb _ = false |- _ => apply negb_false_iff in H
    | H : bool_decide _ = true |- _ => apply bool_decide_eq_true in H
    | H : bool_decide _ = false |- _ => apply bool_decide_eq_false in H
    end.

Ltac ow w :=
  destruct w as [st hp nt su rd];
  destruct st as [ph ses pr up lo ge co me te er];
  destruct ses as [ro ex sev abt]; proj_simpl.

Lemma start_requests_text (p : jsstring) (ref : option jsstring) :
  truthy_opt ref = false →
  start_requests p ref
  = [{| model := gemini_model;
        contents := [{| text := Some p; inlineData := None |}] |}].
Proof. intros H. unfold start_requests, build_parts. by rewrite H. Qed.

Lemma start_requests_image (p : jsstring) (ref : option jsstring) :
  truthy_opt ref = true →
  start_requests p ref = []
  ∨ ∃ b, well_formed b = true
         ∧ start_requests p ref
           = [{| model := gemini_model;
                 contents := [ {| text := None; inlineData := Some b |};
                               {| text := Some p; inlineData := None |} ] |}].
Proof.
  intros H. unfold start_requests, build_parts. rewrite H.
  destruct (parseBase64 (default [] ref)) as [e|b] eqn:Hp; [by left|right].
  apply parseBase64_inr in Hp as [_ Hwf]. exists b. by destruct b.
Qed.

Lemma version_not_blank (p : jsstring) :
  forallb is_trimmed (p ++ lit " --v 1") = false
  ∧ forallb is_trimmed (p ++ lit " --v 2") = false.
Proof. split; apply not_blank_app; by vm_compute. Qed.

Lemma testPrompt_not_blank (random : Q) st :
  Qle_bool 0 random = true → Qle_bool 1 random = false →
  forallb is_trimmed (testPrompt_of random st) = false.
Proof.
  intros H0 H1. unfold testPrompt_of.
  destruct (truthy (trim (prompt st))) eqn:Ht.
  - rewrite forallb_trim. destruct (forallb is_trimmed (prompt st)) eqn:Hb; [|done].
    apply trim_nil in Hb. by rewrite Hb in Ht.
  - destruct (random_index_in_range random H0 H1) as [p Hp].
    unfold jsstring in *. rewrite Hp. cbn [default from_option id].
    apply list_elem_of_lookup_2 in Hp. unfold SUGGESTED_PROMPTS in Hp.
    repeat (apply elem_of_cons in Hp as [->|Hp]; [by vm_compute|]).
    by apply elem_of_nil in Hp.
Qed.

Lemma Inv2_initial : Inv2 initial_world.
Proof.
  split; cbn; try done.
  unfold INITIAL_METRICS. apply NoDup_ListNoDup. repeat constructor; cbn; lia.
Qed.

Ltac fin :=
  try assumption; try reflexivity; try (by constructor);
  try (by intros [?|?]); try (by intros _ [?|?]); try (by intros ?).

Lemma Inv2_step e w w' : Inv w → Inv2 w → step e w = Some w' → Inv2 w'.
Proof.
  intros Hinv Hinv2 Hstep. unfold step in Hstep.
  destruct (offered e (ui w)) eqn:Hoff; [|done].
  destruct Hinv as [_ _ _ _ Hon Hui Hgen Hgeneral Hprof _ Hab _].
  destruct Hinv2 as [Hnd Hex Hup Hone Hcomp Hsrc Hidle Hfresh Hreq].
  destruct e as [role| |result|s|s|idx val| |now| |random|selection now|i respond first];
    cbn [offered fire] in Hoff, Hstep; bools.
  - (* Click_role *)
    simplify_eq. unfold handleStart. ow w. simplify_eq.
    destruct (Hon eq_refl) as (-> & -> & -> & ->).
    destruct (Hup (or_introl eq_refl)) as [-> ->].
    pose proof (Hfresh eq_refl) as Hnil.
    destruct (decide (role = GENERAL_USER)) as [->|Hrole];
      split; proj_simpl; rewrite ?Hnil; fin; intros _; by apply Hidle.
  - (* Pick_file *)
    simplify_eq. ow w. simplify_eq. destruct (Hui eq_refl) as (-> & _).
    split; proj_simpl; fin.
  - (* Reader_loadend *)
    ow w. destruct rd as [|k]; simplify_eq.
    split; proj_simpl; fin.
    intros Hp. by destruct (Hup Hp).
  - (* Type_prompt *)
    simplify_eq. ow w. split; proj_simpl; fin.
  - (* Type_feedback *)
    simplify_eq. ow w. split; proj_simpl; fin.
  - (* Slide *)
    unfold slider_onChange in Hstep. ow w.
    destruct (me !! idx) as [l|]; simplify_eq; split; proj_simpl; fin.
  - (* Click_generate *)
    unfold handleGenerateSingle_begin in Hstep. rewrite truthy_trim, negb_involutive in Hstep.
    destruct (forallb is_trimmed (prompt (ui w))) eqn:Hb; [simplify_eq; by split|].
    pose proof (gti_start_requests (prompt (ui w)) None (net w)) as Hr.
    rewrite start_requests_text in Hr by done.
    destruct (gti_start (prompt (ui w)) None (net w)) as [t n']. cbn [snd] in Hr.
    simplify_eq. ow w. simplify_eq. destruct (Hgen eq_refl) as (Hrole & _).
    split; proj_simpl; fin.
    + intros Hs. by destruct su.
    + rewrite Hr. apply Forall_app. split; [done|]. constructor; [|constructor].
      split; [done|]. case_decide; [done|]. by exists pr.
  - (* Click_submit_eval *)
    unfold handleSubmitSingleEval in Hstep. ow w. simplify_eq.
    destruct (Hgen eq_refl) as (Hrole & _ & -> & -> & _).
    destruct ge as [img|]; [destruct (truthy img)|]; simplify_eq;
      split; proj_simpl; fin.
    + apply NoDup_seq.
    + intros _. by apply Hup; right.
  - (* Click_general_submit *)
    unfold handleGeneralUserSubmit_begin, general_submit_disabled, Button_fires
      in *. bools.
    repeat match goal with
      | H : truthy_opt _ = true |- _ => rewrite H in Hstep; revert H
      | H : truthy (trim _) = true |- _ => rewrite H in Hstep; clear H
      end.
    intros Hup1. cbn [negb orb] in Hstep.
    pose proof (gti_start_requests (prompt (ui w) ++ lit " --v 1")
                  (uploadedImage (ui w)) (net w)) as HrA.
    destruct (gti_start (prompt (ui w) ++ lit " --v 1") (uploadedImage (ui w))
                (net w)) as [tA n1].
    pose proof (gti_start_requests (prompt (ui w) ++ lit " --v 2")
                  (uploadedImage (ui w)) n1) as HrB.
    destruct (gti_start (prompt (ui w) ++ lit " --v 2") (uploadedImage (ui w))
                n1) as [tB n2].
    cbn [snd] in HrA, HrB. simplify_eq. ow w. simplify_eq.
    destruct (Hui eq_refl) as (-> & _).
    destruct (version_not_blank pr) as [Hv1 Hv2].
    split; proj_simpl; fin.
    + intros Hs. by destruct su.
    + rewrite HrB, HrA. rewrite !Forall_app. split; [split; [done|]|].
      * destruct (start_requests_image (pr ++ lit " --v 1") up Hup1) as [->|(b & Hwf & ->)];
          [constructor|constructor; [|constructor]].
        split; [done|]. by exists b, (pr ++ lit " --v 1").
      * destruct (start_requests_image (pr ++ lit " --v 2") up Hup1) as [->|(b & Hwf & ->)];
          [constructor|constructor; [|constructor]].
        split; [done|]. by exists b, (pr ++ lit " --v 2").
  - (* Click_start_ab *)
    unfold handleStartProfessionalABTest_begin, shows_start_step, isGeneralUser
      in *. bools.
    pose proof (gti_start_requests (testPrompt_of random (ui w) ++ lit " --v 1")
                  None (net w)) as HrA.
    destruct (gti_start (testPrompt_of random (ui w) ++ lit " --v 1") None
                (net w)) as [tA n1].
    pose proof (gti_start_requests (testPrompt_of random (ui w) ++ lit " --v 2")
                  None n1) as HrB.
    destruct (gti_start (testPrompt_of random (ui w) ++ lit " --v 2") None n1)
      as [tB n2].
    cbn [snd] in HrA, HrB. rewrite start_requests_text in HrA, HrB by done.
    destruct (version_not_blank (testPrompt_of random (ui w))) as [Hv1 Hv2].
    simplify_eq. ow w. simplify_eq.
    split; proj_simpl; fin.
    + intros Hs. by destruct su.
    + rewrite HrB, HrA. rewrite !Forall_app. split; [split; [done|]|];
        (constructor; [|constructor]); (split; [done|]); (case_decide; [done|]);
        eexists; split; [reflexivity|done|reflexivity|done].
  - (* Choose *)
    simplify_eq. unfold shows_comparison, handleABSelection in *. bools.
    ow w. simplify_eq.
    destruct co as [images|];
      [|by match goal with H : is_Some None |- _ => destruct H end].
    assert (abt = []) as ->.
    { destruct abt; [done|]. by specialize (Hab ltac:(done)). }
    split; proj_simpl; fin.
    + intros [?|Hr]; [done|]. by apply Hup; right.
    + intros Hr _. apply Hone; [done|by left].
    + intros Hr. constructor; [|constructor]. proj_simpl.
      by destruct (Hup (or_intror Hr)) as [-> _].
  - (* Settle *)
    destruct (suspended w !! i) as [a|] eqn:Ha; [|done].
    destruct a as [t|tA tB|tA tB].
    + pose proof (gti_finish_requests respond t (net w)) as Hr.
      destruct (gti_finish respond t (net w)) as [r n']. cbn [snd] in Hr.
      simplify_eq. ow w.
      destruct r as [err|img]; unfold handleGenerateSingle_resume;
        split; proj_simpl; rewrite ?Hr; fin.
    + pose proof (pair_finish_requests respond first tA tB (net w)) as Hr.
      destruct (pair_finish respond first tA tB (net w)) as [r n']. cbn [snd] in Hr.
      simplify_eq. ow w.
      assert (ro = GENERAL_USER) as ->.
      { destruct (decide (ro = GENERAL_USER)) as [|Hne]; [done|].
        by pose proof (Forall_lookup_1 _ _ _ _ (Hprof Hne) Ha). }
      destruct (Hgeneral eq_refl)
        as [-> [->|(tA' & tB' & -> & -> & -> & -> & ->)]]; [done|].
      destruct r as [err|p]; unfold handleGeneralUserSubmit_resume;
        split; proj_simpl; rewrite ?Hr; fin.
    + pose proof (pair_finish_requests respond first tA tB (net w)) as Hr.
      destruct (pair_finish respond first tA tB (net w)) as [r n']. cbn [snd] in Hr.
      simplify_eq. ow w.
      destruct r as [err|p]; unfold handleStartProfessionalABTest_resume;
        split; proj_simpl; rewrite ?Hr; fin.
Qed.

Lemma Inv2_reachable w : reachable w → Inv2 w.
Proof.
  intros [es Hrun]. revert Hrun.
  generalize Inv2_initial, Inv_initial. generalize initial_world as w0.
  induction es as [|e es IH]; intros w0 H2 H1 Hrun.
  - cbn in Hrun. by simplify_eq.
  - cbn [run] in Hrun. destruct (step e w0) as [w1|] eqn:Hs; [|done].
    eapply IH; [| |done]; [by eapply Inv2_step|by eapply Inv_step].
Qed.

Lemma generateTestImage_truthy (respond : Oracle) p ref n img :
  fst (generateTestImage respond p ref n) = inr img → truthy img = true.
Proof.
  rewrite generateTestImage_fst. unfold start_task, task_result.
  destruct (build_parts p ref) as [e|ps]; [done|].
  destruct (respond _ _) as [e|resp]; [done|].
  intros [b ->]%extract_image_data_url. apply truthy_data_url.
Qed.

(** X9. One generation of a single image, from the click to the answer of
    the service.  With a prompt that is not blank the click shows the
    spinner and clears the image and the error; when the request settles
    the spinner is off, and either the image is in the state, without
    error, and the rating block is rendered, or there is no image and the
    error banner is shown.  The phase, the session, the prompt and the
    metrics are as before the click. *)
Theorem handleGenerateSingle_outcome w (respond : Oracle) (first : Side) :
  phase (ui w) = GENERATION_EVAL →
  forallb is_trimmed (prompt (ui w)) = false →
  let out := generateTestImage respond (prompt (ui w)) None (net w) in
  ∃ w1 w2,
    step Click_generate w = Some w1
    ∧ loading (ui w1) = true ∧ generatedImage (ui w1) = None
    ∧ error (ui w1) = None
    ∧ step (Settle (length (suspended w)) respond first) w1 = Some w2
    ∧ net w2 = snd out
    ∧ loading (ui w2) = false
    ∧ phase (ui w2) = GENERATION_EVAL
    ∧ session (ui w2) = session (ui w)
    ∧ prompt (ui w2) = prompt (ui w)
    ∧ metrics (ui w2) = metrics (ui w) ∧ heap w2 = heap w
    ∧ match fst out with
      | inr img =>
          generatedImage (ui w2) = Some img ∧ error (ui w2) = None
          ∧ shows_rating (ui w2) = true
      | inl _ =>
          generatedImage (ui w2) = None
          ∧ error_banner (ui w2) = Some (lit "生成图像失败，请重试。")
      end.
Proof.
  intros Hph Hb out. subst out.
  assert (Hpr : truthy (prompt (ui w)) = true).
  { by destruct (prompt (ui w)). }
  pose proof (generateTestImage_split respond (prompt (ui w)) None (net w)) as Hsplit.
  pose proof (generateTestImage_truthy respond (prompt (ui w)) None (net w)) as Himg.
  rewrite Hsplit in Himg |- *.
  unfold step at 1. cbn [offered fire].
  unfold generate_disabled, Button_fires, handleGenerateSingle_begin.
  rewrite Hph, Hpr, truthy_trim, Hb. cbn [negb andb].
  rewrite bool_decide_eq_true_2 by done.
  destruct (gti_start (prompt (ui w)) None (net w)) as [t n1]. cbn [fst snd] in *.
  destruct (gti_finish respond t n1) as [r n2] eqn:Hfin. cbn [fst snd] in *.
  eexists _, _. split; [reflexivity|].
  do 3 (split; [destruct w as [st ? ? ? ?]; by destruct st|]).
  unfold step. cbn [offered fire suspend suspended].
  rewrite lookup_app_r, Nat.sub_diag by done. cbn [lookup list_lookup].
  proj_simpl. rewrite Hfin.
  split; [reflexivity|]. split; [done|].
  destruct w as [st hp nt su rd]; destruct st; proj_simpl. simplify_eq.
  destruct r as [e|img]; cbn [handleGenerateSingle_resume]; proj_simpl.
  - unfold error_banner; proj_simpl. cbn [truthy_opt].
    by repeat (split; [reflexivity|]).
  - unfold shows_rating; proj_simpl. cbn [truthy_opt].
    repeat (split; [reflexivity|]). by apply Himg.
Qed.

(** X10. What a click on the generate button sends.  The button is enabled
    as soon as the prompt is not empty: the click is accepted exactly on the
    generation screen with a prompt that is not empty.  The handler returns
    on a prompt that trims to nothing: an accepted click on a prompt of
    white space changes nothing and sends nothing; any other accepted click
    sends one request, made of the prompt as typed, not trimmed, and of no
    image. *)
Theorem handleGenerateSingle_request w :
  (is_Some (step Click_generate w)
   ↔ phase (ui w) = GENERATION_EVAL ∧ prompt (ui w) ≠ [])
  ∧ (phase (ui w) = GENERATION_EVAL → prompt (ui w) ≠ [] →
     forallb is_trimmed (prompt (ui w)) = true →
     step Click_generate w = Some w)
  ∧ ∀ w', step Click_generate w = Some w' →
      prompt (ui w) ≠ []
      ∧ requests (net w')
        = requests (net w)
          ++ (if forallb is_trimmed (prompt (ui w)) then []
              else [{| model := gemini_model;
                       contents := [{| text := Some (prompt (ui w));
                                       inlineData := None |}] |}])
      ∧ (forallb is_trimmed (prompt (ui w)) = true → w' = w).
Proof.
  assert (Htr : truthy (prompt (ui w)) = true ↔ prompt (ui w) ≠ []).
  { by destruct (prompt (ui w)). }
  unfold step. cbn [offered fire].
  unfold generate_disabled, Button_fires, handleGenerateSingle_begin.
  rewrite truthy_trim, negb_involutive.
  split; [|split].
  - split.
    + intros Hs.
      destruct (bool_decide (phase (ui w) = GENERATION_EVAL)) eqn:Hph;
        [|by destruct Hs].
      apply bool_decide_eq_true in Hph.
      destruct (truthy (prompt (ui w))) eqn:Hpr; [|by destruct Hs].
      split; [exact Hph|]. by apply Htr.
    + intros [Hph Hne]. apply Htr in Hne.
      rewrite bool_decide_eq_true_2, Hne by done. cbn [negb andb].
      destruct (forallb is_trimmed (prompt (ui w))); cbn [negb]; [by eexists|].
      destruct (gti_start (prompt (ui w)) None (net w)) as [t n1]. by eexists.
  - intros Hph Hne Hb. apply Htr in Hne.
    by rewrite bool_decide_eq_true_2, Hne, Hb by done.
  - intros w' Hstep.
    destruct (bool_decide (phase (ui w) = GENERATION_EVAL)); [|done].
    destruct (truthy (prompt (ui w))) eqn:Hpr; [|done]. cbn [negb andb] in Hstep.
    split; [by apply Htr|]. revert Hstep.
    destruct (forallb is_trimmed (prompt (ui w))) eqn:Hb; cbn [negb].
    + intros [= <-]. by rewrite app_nil_r.
    + pose proof (gti_start_requests (prompt (ui w)) None (net w)) as Hreq.
      destruct (gti_start (prompt (ui w)) None (net w)) as [t n1].
      cbn [snd] in Hreq. intros [= <-]. proj_simpl.
      by rewrite Hreq, start_requests_text.
Qed.

(** X11. The prompt of a professional comparison.  The start button stores
    the prompt it sends: the typed prompt, trimmed, or, when that is blank,
    one of the suggested prompts; it is never blank.  The two requests of
    the pair carry it with the suffixes [--v 1] and [--v 2] and no image,
    the spinner is shown and the error is cleared. *)
Theorem handleStartProfessionalABTest_prompt (random : Q) w w' :
  step (Click_start_ab random) w = Some w' →
  let p := prompt (ui w') in
  (if forallb is_trimmed (prompt (ui w)) then p ∈ SUGGESTED_PROMPTS
   else p = trim (prompt (ui w)))
  ∧ forallb is_trimmed p = false
  ∧ requests (net w')
    = requests (net w)
      ++ [ {| model := gemini_model;
              contents := [{| text := Some (p ++ lit " --v 1");
                              inlineData := None |}] |};
           {| model := gemini_model;
              contents := [{| text := Some (p ++ lit " --v 2");
                              inlineData := None |}] |} ]
  ∧ loading (ui w') = true ∧ error (ui w') = None
  ∧ phase (ui w') = AB_TEST ∧ session (ui w') = session (ui w).
Proof.
  unfold step. cbn [offered fire]. intros Hstep.
  destruct (bool_decide (phase (ui w) = AB_TEST)) eqn:Hph; [|done].
  apply bool_decide_eq_true in Hph.
  destruct (shows_start_step (ui w)); [|done].
  destruct (Qle_bool 0 random) eqn:H0; [|done].
  destruct (Qle_bool 1 random) eqn:H1; [done|]. cbn [negb andb] in Hstep.
  pose proof (testPrompt_not_blank random (ui w) H0 H1) as Hnb.
  unfold handleStartProfessionalABTest_begin in Hstep.
  set (tp := testPrompt_of random (ui w)) in *.
  pose proof (gti_start_requests (tp ++ lit " --v 1") None (net w)) as HA.
  destruct (gti_start (tp ++ lit " --v 1") None (net w)) as [tA n1].
  pose proof (gti_start_requests (tp ++ lit " --v 2") None n1) as HB.
  destruct (gti_start (tp ++ lit " --v 2") None n1) as [tB n2].
  cbn [snd] in HA, HB. apply (inj Some) in Hstep. subst w'.
  destruct w as [st hp nt su rd]; destruct st as [ph ses pr up lo ge co me te er].
  proj_simpl. subst ph.
  split.
  - subst tp. unfold testPrompt_of. proj_simpl. rewrite truthy_trim.
    destruct (forallb is_trimmed pr); cbn [negb]; [|done].
    destruct (random_index_in_range random H0 H1) as [q Hq].
    unfold jsstring in *. rewrite Hq. cbn [default from_option id].
    by eapply list_elem_of_lookup_2.
  - split; [done|]. split; [|done].
    rewrite HB, HA, !start_requests_text by done. by rewrite <- app_assoc.
Qed.

Lemma metric_values_alter_at (h : Heap) (f : EvaluationMetric.t → EvaluationMetric.t)
    (ls : list loc) (idx : nat) (l : loc) (m : EvaluationMetric.t) :
  NoDup ls → ls !! idx = Some l → h !! l = Some m →
  metric_values (alter f l h) ls = <[idx := Some (f m)]> (metric_values h ls).
Proof.
  intros Hnd Hidx Hl. unfold metric_values. apply list_eq. intros i.
  destruct (decide (i = idx)) as [->|Hne].
  - rewrite list_lookup_insert_eq
      by (rewrite length_fmap; by eapply lookup_lt_Some).
    rewrite list_lookup_fmap, Hidx. cbn [fmap option_fmap option_map].
    rewrite list_lookup_alter_eq. unfold loc in *. by rewrite Hl.
  - rewrite list_lookup_insert_ne by done. rewrite !list_lookup_fmap.
    destruct (ls !! i) as [l'|] eqn:Hi; [|done]. cbn.
    rewrite list_lookup_alter_ne; [done|].
    intros ->. apply Hne. by eapply NoDup_lookup.
Qed.

(** X12. A slider moves one score.  In every state of a session, a move of
    the slider of the metric at index [idx] to [val] changes the score of
    that metric, and nothing else: the metrics on display are those of
    before with the one at [idx] at score [val], the other fields of the
    metric and the rest of the state are unchanged. *)
Theorem slider_onChange_one_score w (idx : nat) (val : Q) w' :
  reachable w → step (Slide idx val) w = Some w' →
  ∃ m, metric_values (heap w) (metrics (ui w)) !! idx = Some (Some m)
       ∧ metric_values (heap w') (metrics (ui w'))
         = <[idx := Some (EvaluationMetric.with_score val m)]>
             (metric_values (heap w) (metrics (ui w)))
       ∧ EvaluationMetric.id (EvaluationMetric.with_score val m)
         = EvaluationMetric.id m
       ∧ EvaluationMetric.score (EvaluationMetric.with_score val m) = val
       ∧ ui w' = ui w ∧ net w' = net w.
Proof.
  intros Hreach Hstep.
  pose proof (Inv_reachable w Hreach) as Hinv.
  pose proof (Inv2_reachable w Hreach) as Hinv2.
  destruct (inv_metrics w Hinv) as (_ & Hbound & _).
  pose proof (inv2_nodup w Hinv2) as Hnd.
  revert Hstep. unfold step. cbn [offered fire].
  destruct (bool_decide (phase (ui w) = GENERATION_EVAL)); [|done].
  destruct (shows_rating (ui w)); [|done]. cbn [andb].
  destruct (bool_decide (idx < length (metrics (ui w)))%nat) eqn:Hidx; [|done].
  apply bool_decide_eq_true in Hidx.
  destruct (lookup_lt_is_Some_2 _ _ Hidx) as [l Hl].
  pose proof (Forall_lookup_1 _ _ _ _ Hbound Hl) as Hlt. cbn beta in Hlt.
  destruct (lookup_lt_is_Some_2 _ _ Hlt) as [m Hm].
  unfold slider_onChange. rewrite Hl. intros [= <-]. cbn [ui heap net].
  exists m. split.
  { unfold metric_values. rewrite list_lookup_fmap, Hl.
    cbn [fmap option_fmap option_map]. unfold loc in *. by rewrite Hm. }
  assert (Hui : apply_update (ui w) (setMetrics (metrics (ui w))) = ui w).
  { destruct w as [st hp nt su rd]; by destruct st. }
  rewrite Hui. split; [by apply metric_values_alter_at|].
  by destruct m.
Qed.

Lemma step_role e w w' :
  phase (ui w) ≠ ONBOARDING → step e w = Some w' →
  UserSession.role (session (ui w')) = UserSession.role (session (ui w))
  ∧ UserSession.experienceLevel (session (ui w'))
    = UserSession.experienceLevel (session (ui w))
  ∧ phase (ui w') ≠ ONBOARDING.
Proof.
  intros Hph Hstep. unfold step in Hstep.
  destruct (offered e (ui w)) eqn:Hoff; [|done].
  destruct e as [role| |result|s|s|idx val| |now| |random|selection now|i respond first];
    cbn [offered fire] in Hoff, Hstep; bools.
  - done.
  - by simplify_eq.
  - ow w. destruct rd as [|k]; by simplify_eq.
  - simplify_eq. by ow w.
  - simplify_eq. by ow w.
  - unfold slider_onChange in Hstep. ow w.
    destruct (me !! idx) as [l|]; by simplify_eq.
  - unfold handleGenerateSingle_begin in Hstep.
    destruct (negb (truthy (trim (prompt (ui w))))); [by simplify_eq|].
    destruct (gti_start (prompt (ui w)) None (net w)) as [t n'].
    simplify_eq. by ow w.
  - unfold handleSubmitSingleEval in Hstep. ow w.
    destruct ge as [img|]; [destruct (truthy img)|]; by simplify_eq.
  - unfold handleGeneralUserSubmit_begin in Hstep.
    destruct (negb (truthy_opt (uploadedImage (ui w)))
              || negb (truthy (trim (prompt (ui w))))); [by simplify_eq|].
    destruct (gti_start _ _ (net w)) as [tA n1].
    destruct (gti_start _ _ n1) as [tB n2].
    simplify_eq. by ow w.
  - unfold handleStartProfessionalABTest_begin in Hstep.
    destruct (gti_start _ _ (net w)) as [tA n1].
    destruct (gti_start _ _ n1) as [tB n2].
    simplify_eq. by ow w.
  - simplify_eq. unfold handleABSelection. ow w.
    by destruct co as [images|].
  - destruct (suspended w !! i) as [a|]; [|done].
    destruct a as [t|tA tB|tA tB].
    + destruct (gti_finish respond t (net w)) as [r n']. simplify_eq. ow w.
      by destruct r as [err|img].
    + destruct (pair_finish respond first tA tB (net w)) as [r n'].
      simplify_eq. ow w. by destruct r as [err|p].
    + destruct (pair_finish respond first tA tB (net w)) as [r n'].
      simplify_eq. ow w. by destruct r as [err|p].
Qed.

(** X13. The role is chosen once.  After the onboarding no run of the
    session changes the role or the experience level, and none comes back
    to the onboarding. *)
Theorem role_fixed_after_onboarding (es : list Event) w w' :
  phase (ui w) ≠ ONBOARDING → run es w = Some w' →
  UserSession.role (session (ui w')) = UserSession.role (session (ui w))
  ∧ UserSession.experienceLevel (session (ui w'))
    = UserSession.experienceLevel (session (ui w))
  ∧ phase (ui w') ≠ ONBOARDING.
Proof.
  revert w. induction es as [|e es IH]; intros w Hph Hrun; cbn [run] in Hrun.
  - by simplify_eq.
  - destruct (step e w) as [w1|] eqn:Hs; [|done].
    destruct (step_role e w w1 Hph Hs) as (Hr & He & Hp).
    destruct (IH w1 Hp Hrun) as (Hr' & He' & Hp').
    rewrite Hr', He'. by rewrite Hr, He.
Qed.

Lemma step_completed e w w' :
  Inv w → phase (ui w) = COMPLETED → step e w = Some w' →
  phase (ui w') = COMPLETED ∧ session (ui w') = session (ui w).
Proof.
  intros Hinv Hph Hstep. unfold step in Hstep.
  destruct (offered e (ui w)) eqn:Hoff; [|done].
  destruct Hinv as [_ _ _ _ _ _ _ Hgeneral Hprof _ _ _].
  destruct e as [role| |result|s|s|idx val| |now| |random|selection now|i respond first];
    cbn [offered fire] in Hoff, Hstep; rewrite ?Hph in Hoff;
    rewrite ?(bool_decide_eq_false_2 (COMPLETED = ONBOARDING)),
      ?(bool_decide_eq_false_2 (COMPLETED = USER_INPUT)),
      ?(bool_decide_eq_false_2 (COMPLETED = GENERATION_EVAL)),
      ?(bool_decide_eq_false_2 (COMPLETED = AB_TEST)) in Hoff by done;
    cbn [andb orb] in Hoff; try discriminate Hoff.
  - ow w. destruct rd as [|k]; by simplify_eq.
  - destruct (suspended w !! i) as [a|] eqn:Ha; [|done].
    destruct a as [t|tA tB|tA tB].
    + destruct (gti_finish respond t (net w)) as [r n']. simplify_eq. ow w.
      by destruct r as [err|img].
    + exfalso.
      destruct (decide (UserSession.role (session (ui w)) = GENERAL_USER))
        as [Hro|Hro].
      * destruct (Hgeneral Hro) as [_ [Hs|(tA' & tB' & _ & Hab & _)]].
        -- by rewrite Hs in Ha.
        -- by rewrite Hph in Hab.
      * by pose proof (Forall_lookup_1 _ _ _ _ (Hprof Hro) Ha).
    + destruct (pair_finish respond first tA tB (net w)) as [r n'].
      simplify_eq. ow w. by destruct r as [err|p].
Qed.

Lemma run_completed es w w' :
  reachable w → phase (ui w) = COMPLETED → run es w = Some w' →
  phase (ui w') = COMPLETED ∧ session (ui w') = session (ui w).
Proof.
  revert w. induction es as [|e es IH]; intros w Hreach Hph Hrun;
    cbn [run] in Hrun.
  - by simplify_eq.
  - destruct (step e w) as [w1|] eqn:Hs; [|done].
    destruct (step_completed e w w1 (Inv_reachable w Hreach) Hph Hs) as [Hp Hse].
    destruct (IH w1 (reachable_step e w w1 Hreach Hs) Hp Hrun) as [Hp' Hse'].
    split; [done|]. by rewrite Hse'.
Qed.

(** X14. The completed phase is final.  Once a session is completed, no
    action of the user and no late answer of the service changes the phase
    or the session that the report exports. *)
Theorem completed_is_final (es : list Event) w w' :
  reachable w → phase (ui w) = COMPLETED → run es w = Some w' →
  phase (ui w') = COMPLETED ∧ session (ui w') = session (ui w).
Proof. apply run_completed. Qed.

(** X15. The summary shows the choice that was made.  After a selection
    under the pair, and whatever happens next, the session is completed and
    the summary shows the role, the selection and the reasoning typed at
    the time of the selection; the test type is the one of the role's flow:
    image to image for the general user, text generation and comparison for
    the others. *)
Theorem renderCompleted_summary w (selection : Selection.t) (now : Z) w1
    (es : list Event) w2 :
  reachable w → step (Choose selection now) w = Some w1 →
  run es w1 = Some w2 →
  phase (ui w2) = COMPLETED
  ∧ renderCompleted (ui w2)
    = {| shown_role := UserRole_value (UserSession.role (session (ui w)));
         shown_test_type :=
           if decide (UserSession.role (session (ui w)) = GENERAL_USER)
           then lit "图生图对比" else lit "文本生成 + 对比";
         shown_choice := Some selection;
         shown_reasoning := Some (textFeedback (ui w)) |}.
Proof.
  intros Hreach Hstep Hrun.
  pose proof (reachable_step _ _ _ Hreach Hstep) as Hreach1.
  pose proof (Inv_reachable w Hreach) as Hinv.
  pose proof (Inv2_reachable w Hreach) as Hinv2.
  assert (Hw1 : phase (ui w1) = COMPLETED
    ∧ renderCompleted (ui w1)
      = {| shown_role := UserRole_value (UserSession.role (session (ui w)));
           shown_test_type :=
             if decide (UserSession.role (session (ui w)) = GENERAL_USER)
             then lit "图生图对比" else lit "文本生成 + 对比";
           shown_choice := Some selection;
           shown_reasoning := Some (textFeedback (ui w)) |}).
  { unfold step in Hstep.
    destruct (offered (Choose selection now) (ui w)) eqn:Hoff; [|done].
    cbn [offered fire] in Hoff, Hstep. unfold shows_comparison in Hoff. bools.
    destruct Hinv as [_ _ _ _ _ _ _ Hgeneral _ _ Hab _].
    destruct Hinv2 as [_ _ _ Hone _ _ _ _ _].
    simplify_eq. unfold handleABSelection. ow w. simplify_eq.
    destruct co as [images|];
      [|by match goal with H : is_Some None |- _ => destruct H end].
    assert (abt = []) as ->.
    { destruct abt; [done|]. by specialize (Hab ltac:(done)). }
    proj_simpl. split; [done|]. unfold renderCompleted. proj_simpl.
    cbn [app length Nat.ltb Nat.leb lookup list_lookup fmap option_fmap option_map
         ABTestResult.selectedImage ABTestResult.reasoning].
    f_equal. destruct (decide (ro = GENERAL_USER)) as [Hro|Hro].
    - subst ro. by destruct (Hgeneral eq_refl) as [-> _].
    - by rewrite (Hone Hro (or_introl eq_refl)). }
  destruct Hw1 as [Hph1 Hview].
  destruct (run_completed es w1 w2 Hreach1 Hph1 Hrun) as [Hph2 Hses].
  split; [done|]. rewrite <- Hview. unfold renderCompleted. by rewrite Hses.
Qed.

(** X16. The professional flow has no source image.  In every state of a
    session whose role is not the general user, no image is uploaded and no
    upload is pending, so that every pairwise record of the session has no
    source image. *)
Theorem professional_session_no_image w :
  reachable w → UserSession.role (session (ui w)) ≠ GENERAL_USER →
  uploadedImage (ui w) = None ∧ readers w = 0%nat
  ∧ Forall (λ r, ABTestResult.sourceImage r = None)
      (UserSession.abTests (session (ui w))).
Proof.
  intros Hreach Hro. pose proof (Inv2_reachable w Hreach) as Hinv2.
  destruct (inv2_upload w Hinv2 (or_intror Hro)) as [Hup Hrd].
  split; [exact Hup|]. split; [exact Hrd|]. by apply (inv2_source w Hinv2).
Qed.

(** X17. What a session sends to the service.  Nothing is sent before a
    role is chosen.  Every request of a session names the one image model
    and carries a prompt that is not blank; a session of a general user
    sends only requests made of a well-formed image followed by the prompt,
    a session of another role only requests made of the prompt alone. *)
Theorem session_requests w :
  reachable w →
  (phase (ui w) = ONBOARDING → requests (net w) = [])
  ∧ Forall (λ req,
             model req = gemini_model
             ∧ if decide (UserSession.role (session (ui w)) = GENERAL_USER)
               then with_image req else text_only req)
      (requests (net w)).
Proof.
  intros Hreach. pose proof (Inv2_reachable w Hreach) as Hinv2.
  split; [apply (inv2_fresh_net w Hinv2)|apply (inv2_requests w Hinv2)].
Qed.

(** X18. The spinner is shown only while an answer of the service is
    awaited: in every state of a session where [loading] is true, a handler
    is suspended at its [await]. *)
Theorem loading_only_while_waiting w :
  reachable w → loading (ui w) = true → suspended w ≠ [].
Proof.
  intros Hreach Hlo Hs. pose proof (Inv2_reachable w Hreach) as Hinv2.
  rewrite (inv2_idle w Hinv2 Hs) in Hlo. discriminate Hlo.
Qed.

(** X19. What the general user's submission sends.  With an uploaded image
    that follows the convention, the click goes to the comparison phase
    with the spinner on, and sends two requests: the decoded image followed
    by the prompt as typed with the suffix [--v 1], resp. [--v 2]. *)
Theorem handleGeneralUserSubmit_requests w w' (b : Blob) :
  step Click_general_submit w = Some w' →
  uploadedImage (ui w) = Some (data_url b) → well_formed b = true →
  requests (net w')
  = requests (net w)
    ++ [ {| model := gemini_model;
            contents := [ {| text := None; inlineData := Some b |};
                          {| text := Some (prompt (ui w) ++ lit " --v 1");
                             inlineData := None |} ] |};
         {| model := gemini_model;
            contents := [ {| text := None; inlineData := Some b |};
                          {| text := Some (prompt (ui w) ++ lit " --v 2");
                             inlineData := None |} ] |} ]
  ∧ phase (ui w') = AB_TEST ∧ loading (ui w') = true
  ∧ forallb is_trimmed (prompt (ui w)) = false
  ∧ session (ui w') = session (ui w).
Proof.
  unfold step. cbn [offered fire]. intros Hstep Hup Hwf.
  destruct (bool_decide (phase (ui w) = USER_INPUT)); [|done].
  unfold general_submit_disabled, Button_fires, handleGeneralUserSubmit_begin
    in Hstep.
  rewrite Hup in Hstep. cbn [truthy_opt] in Hstep.
  rewrite truthy_data_url, truthy_trim in Hstep.
  destruct (forallb is_trimmed (prompt (ui w))) eqn:Hb; [done|].
  cbn [negb orb andb] in Hstep.
  pose proof (gti_start_requests (prompt (ui w) ++ lit " --v 1")
                (Some (data_url b)) (net w)) as HA.
  destruct (gti_start (prompt (ui w) ++ lit " --v 1") (Some (data_url b))
              (net w)) as [tA n1].
  pose proof (gti_start_requests (prompt (ui w) ++ lit " --v 2")
                (Some (data_url b)) n1) as HB.
  destruct (gti_start (prompt (ui w) ++ lit " --v 2") (Some (data_url b)) n1)
    as [tB n2].
  cbn [snd] in HA, HB. unfold start_requests in HA, HB.
  rewrite build_parts_data_url in HA, HB by done.
  apply (inj Some) in Hstep. subst w'.
  destruct w as [st hp nt su rd]; destruct st as [ph ses pr up lo ge co me te er].
  proj_simpl. split; [|done].
  rewrite HB, HA. by rewrite <- app_assoc.
Qed.

End Session.

(** ** Sample sessions, further *)

Section SessionWitness.

Lemma handleGenerateSingle_outcome_witness :
  ∃ w1 w2,
    step Click_generate
      (after [Click_role DESIGNER; Type_prompt (lit "a red bicycle")])
    = Some w1
    ∧ step (Settle 0 respond_image SideA) w1 = Some w2
    ∧ loading (ui w2) = false ∧ phase (ui w2) = GENERATION_EVAL.
Proof.
  destruct (handleGenerateSingle_outcome
              (after [Click_role DESIGNER; Type_prompt (lit "a red bicycle")])
              respond_image SideA)
    as (w1 & w2 & H1 & _ & _ & _ & H2 & _ & Hlo & Hph & _).
  - vm_compute. reflexivity.
  - vm_compute. reflexivity.
  - exists w1, w2. split; [exact H1|]. split; [exact H2|].
    split; [exact Hlo|exact Hph].
Defined.

Lemma handleGenerateSingle_request_witness :
  step Click_generate (after [Click_role DESIGNER; Type_prompt (lit "   ")])
  = Some (after [Click_role DESIGNER; Type_prompt (lit "   ")])
  ∧ ∃ w',
      step Click_generate
        (after [Click_role DESIGNER; Type_prompt (lit "a red bicycle")])
      = Some w'
      ∧ length (requests (net w')) = 1%nat.
Proof.
  split.
  - apply (proj1 (proj2 (handleGenerateSingle_request
                           (after [Click_role DESIGNER; Type_prompt (lit "   ")]))));
      vm_compute; [reflexivity|discriminate|reflexivity].
  - destruct (handleGenerateSingle_request
                (after [Click_role DESIGNER; Type_prompt (lit "a red bicycle")]))
      as (Hacc & _ & Hsend).
    destruct (proj2 Hacc) as [w' Hw'].
    { split; vm_compute; [reflexivity|discriminate]. }
    exists w'. split; [exact Hw'|].
    destruct (Hsend w' Hw') as (_ & Hreq & _). rewrite Hreq.
    vm_compute. reflexivity.
Defined.

Lemma handleStartProfessionalABTest_prompt_witness :
  prompt (ui (after (trace_professional_ab ++ [Click_start_ab (1 # 2)])))
  ∈ SUGGESTED_PROMPTS.
Proof.
  destruct (handleStartProfessionalABTest_prompt (1 # 2)
              (after trace_professional_ab)
              (after (trace_professional_ab ++ [Click_start_ab (1 # 2)])))
    as (H & _).
  - vm_compute. reflexivity.
  - exact H.
Defined.

Lemma slider_onChange_one_score_witness :
  ui (after trace_rated)
  = ui (after [ Click_role DESIGNER; Type_prompt (lit "a red bicycle");
                Click_generate; Settle 0 respond_image SideA ]).
Proof.
  destruct (slider_onChange_one_score
              (after [ Click_role DESIGNER; Type_prompt (lit "a red bicycle");
                       Click_generate; Settle 0 respond_image SideA ])
              1 (9 # 2) (after trace_rated))
    as (m & _ & _ & _ & _ & Hui & _).
  - apply reachable_after. vm_compute. eauto.
  - vm_compute. reflexivity.
  - exact Hui.
Defined.

Lemma role_fixed_after_onboarding_witness :
  UserSession.role (session (ui (after trace_professional_pair)))
  = UserSession.role (session (ui (after [Click_role DESIGNER]))).
Proof.
  destruct (role_fixed_after_onboarding (tail trace_professional_pair)
              (after [Click_role DESIGNER]) (after trace_professional_pair))
    as (H & _).
  - vm_compute. discriminate.
  - vm_compute. reflexivity.
  - exact H.
Defined.

Lemma completed_is_final_witness :
  session
    (ui (after [ Click_role DESIGNER; Type_prompt (lit "a red bicycle");
                 Click_generate; Click_generate; Settle 0 respond_image SideA;
                 Click_submit_eval 1700000000000; Click_start_ab (1 # 2);
                 Settle 1 respond_image SideA;
                 Choose Selection.A 1700000000001;
                 Settle 0 respond_failure SideA ]))
  = session
      (ui (after [ Click_role DESIGNER; Type_prompt (lit "a red bicycle");
                   Click_generate; Click_generate; Settle 0 respond_image SideA;
                   Click_submit_eval 1700000000000; Click_start_ab (1 # 2);
                   Settle 1 respond_image SideA;
                   Choose Selection.A 1700000000001 ])).
Proof.
  destruct (completed_is_final [Settle 0 respond_failure SideA]
              (after [ Click_role DESIGNER; Type_prompt (lit "a red bicycle");
                       Click_generate; Click_generate;
                       Settle 0 respond_image SideA;
                       Click_submit_eval 1700000000000; Click_start_ab (1 # 2);
                       Settle 1 respond_image SideA;
                       Choose Selection.A 1700000000001 ])
              (after [ Click_role DESIGNER; Type_prompt (lit "a red bicycle");
                       Click_generate; Click_generate;
                       Settle 0 respond_image SideA;
                       Click_submit_eval 1700000000000; Click_start_ab (1 # 2);
                       Settle 1 respond_image SideA;
                       Choose Selection.A 1700000000001;
                       Settle 0 respond_failure SideA ]))
    as (_ & H).
  - apply reachable_after. vm_compute. eauto.
  - vm_compute. reflexivity.
  - vm_compute. reflexivity.
  - exact H.
Defined.

Lemma renderCompleted_summary_witness :
  shown_choice
    (renderCompleted
       (ui (after (trace_professional_reasoned
                   ++ [Choose Selection.B 1700000000001]))))
  = Some Selection.B.
Proof.
  destruct (renderCompleted_summary (after trace_professional_reasoned)
              Selection.B 1700000000001
              (after (trace_professional_reasoned
                      ++ [Choose Selection.B 1700000000001]))
              []
              (after (trace_professional_reasoned
                      ++ [Choose Selection.B 1700000000001])))
    as (_ & H).
  - apply reachable_after. vm_compute. eauto.
  - vm_compute. reflexivity.
  - reflexivity.
  - rewrite H. reflexivity.
Defined.

Lemma professional_session_no_image_witness :
  uploadedImage (ui (after trace_professional_pair)) = None.
Proof.
  destruct (professional_session_no_image (after trace_professional_pair))
    as (H & _).
  - apply reachable_after. vm_compute. eauto.
  - vm_compute. discriminate.
  - exact H.
Defined.

Lemma session_requests_witness :
  Forall (λ req,
           model req = gemini_model
           ∧ if decide (UserSession.role (session (ui (after trace_general_pair)))
                        = GENERAL_USER)
             then with_image req else text_only req)
    (requests (net (after trace_general_pair))).
Proof.
  destruct (session_requests (after trace_general_pair)) as (_ & H).
  - apply reachable_after. vm_compute. eauto.
  - exact H.
Defined.

Lemma loading_only_while_waiting_witness :
  suspended (after (trace_professional_ab ++ [Click_start_ab (1 # 2)])) ≠ [].
Proof.
  apply loading_only_while_waiting.
  - apply reachable_after. vm_compute. eauto.
  - vm_compute. reflexivity.
Defined.

Lemma handleGeneralUserSubmit_requests_witness :
  phase (ui (after (trace_general_ready ++ [Click_general_submit]))) = AB_TEST
  ∧ loading (ui (after (trace_general_ready ++ [Click_general_submit]))) = true.
Proof.
  destruct (handleGeneralUserSubmit_requests (after trace_general_ready)
              (after (trace_general_ready ++ [Click_general_submit]))
              sample_image)
    as (_ & Hph & Hlo & _).
  - vm_compute. reflexivity.
  - vm_compute. reflexivity.
  - vm_compute. reflexivity.
  - split; [exact Hph|exact Hlo].
Defined.

End SessionWitness.
